(** * angular-text-extractor: the extraction engine of [src/extractor.js]

    A shallow embedding of the [TextExtractor] class (key generation, the
    heuristic text classifier, the markup extractor and the extraction
    session) together with the properties its specification states.

    JavaScript strings are sequences of UTF-16 code units; a code unit is
    modelled as a number in [N] and a string as a list of code units, so
    that [length], [trim], [includes] and the regular expressions of the
    source (which run without the [u] flag, one code unit at a time) have
    their exact meaning. *)

From Stdlib Require Import NArith List Bool Lia.
From Stdlib Require Import Strings.String Strings.Ascii.
From Stdlib Require Import DecimalN DecimalFacts.
From stdpp Require Import gmap list.

Set Default Proof Using "Type".
Set Warnings "-register-all".

(* ===================================================================== *)
(** ** Code units and strings *)
(* ===================================================================== *)

Definition char := N.
Definition str := list char.

(** [u "abc"] is the JavaScript string literal ['abc'] (ASCII only). *)
Fixpoint u (s : string) : str :=
  match s with
  | EmptyString => []
  | String a r => N_of_ascii a :: u r
  end.

Module Ch.
Local Open Scope N_scope.

Definition in_range (lo hi : N) (c : char) : bool := (lo <=? c) && (c <=? hi).
Definition one (k : N) (c : char) : bool := c =? k.

Definition digit : char -> bool := in_range 48 57.       (* [0-9] *)
Definition lower : char -> bool := in_range 97 122.      (* [a-z] *)
Definition upper : char -> bool := in_range 65 90.       (* [A-Z] *)
Definition alpha (c : char) : bool := lower c || upper c. (* [a-zA-Z] *)
Definition alnum (c : char) : bool := alpha c || digit c. (* [a-zA-Z0-9] *)
Definition word (c : char) : bool := alnum c || one 95 c.  (* \w *)

(** [\s], which is also the set of code units [String.prototype.trim]
    strips: WhiteSpace and LineTerminator of ECMAScript. *)
Definition space (c : char) : bool :=
  in_range 9 13 c || one 32 c || one 160 c || one 5760 c || in_range 8192 8202 c
  || one 8232 c || one 8233 c || one 8239 c || one 8287 c || one 12288 c || one 65279 c.

(** The code units [.] does not match (no [s] flag). *)
Definition line_terminator (c : char) : bool :=
  one 10 c || one 13 c || one 8232 c || one 8233 c.
Definition dot (c : char) : bool := negb (line_terminator c).

(** Membership in an explicit set of ASCII characters, [oneof "-_."]. *)
Definition oneof (s : string) (c : char) : bool := existsb (N.eqb c) (u s).

(** Case mapping of ASCII letters.  Letters outside ASCII are modelled as
    having no case: [generateKey] deletes them after lower-casing, and the
    patterns with the [i] flag only have ASCII letters (see [ci]); the name
    [extractComponentName] derives from a file name with such letters is
    outside the model. *)
Definition to_lower (c : char) : char := if upper c then c + 32 else c.
Definition to_upper (c : char) : char := if lower c then c - 32 else c.
Definition swapcase (c : char) : char :=
  if upper c then c + 32 else if lower c then c - 32 else c.
End Ch.

(* ===================================================================== *)
(** ** String primitives of the source *)
(* ===================================================================== *)

Fixpoint dropWhile (p : char -> bool) (s : str) : str :=
  match s with
  | [] => []
  | c :: r => if p c then dropWhile p r else s
  end.

(** [String.prototype.trim]. *)
Definition trimStart (s : str) : str := dropWhile Ch.space s.
Definition trimEnd (s : str) : str := rev (dropWhile Ch.space (rev s)).
Definition trim (s : str) : str := trimEnd (trimStart s).

Definition str_eqb (a b : str) : bool := bool_decide (a = b).

(** [s.startsWith(p)]. *)
Fixpoint startsWith (p s : str) : bool :=
  match p, s with
  | [], _ => true
  | _ :: _, [] => false
  | a :: p', b :: s' => N.eqb a b && startsWith p' s'
  end.

(** [s.endsWith(p)]. *)
Definition endsWith (p s : str) : bool := startsWith (rev p) (rev s).

(** [s.includes(p)]. *)
Fixpoint includes (p s : str) : bool :=
  startsWith p s ||
  match s with
  | [] => false
  | _ :: s' => includes p s'
  end.

(** [s.toLowerCase()].  Besides the ASCII letters, U+0130 lower-cases to
    [i] followed by U+0307 and U+212A (Kelvin sign) to [k]; no other code
    unit lower-cases into ASCII. *)
Definition toLowerCase (s : str) : str :=
  flat_map (fun c => if N.eqb c 304 then [105; 775]
                     else if N.eqb c 8490 then [107]
                     else [Ch.to_lower c])%N s.

(** [s.toUpperCase()] on ASCII letters (other code units are kept). *)
Definition toUpperCase (s : str) : str := map Ch.to_upper s.

(** [s.substring(0, n)]. *)
Definition substring0 (n : nat) (s : str) : str := take n s.

(** [s.split(sep)] for a one-code-unit separator. *)
Fixpoint split_on (sep : char) (s : str) : list str :=
  match s with
  | [] => [[]]
  | c :: r =>
      if N.eqb c sep then [] :: split_on sep r
      else match split_on sep r with
           | [] => [[c]]
           | w :: ws => (c :: w) :: ws
           end
  end.

(** [parts.join('')]. *)
Definition join (parts : list str) : str := concat parts.

(** [s.replace(/lit/g, by)] for a literal pattern [lit]: every
    non-overlapping occurrence, scanning from the left. *)
Fixpoint replaceAll_fuel (fuel : nat) (lit by_ s : str) : str :=
  match fuel with
  | O => s
  | S fuel' =>
      match s with
      | [] => []
      | c :: r =>
          if startsWith lit s
          then by_ ++ replaceAll_fuel fuel' lit by_ (drop (length lit) s)
          else c :: replaceAll_fuel fuel' lit by_ r
      end
  end.

Definition replaceAll (lit by_ s : str) : str :=
  replaceAll_fuel (S (length s)) lit by_ s.

(** Decimal rendering of a counter, [String(n)] for a non-negative integer. *)
Fixpoint uint_chars (d : Decimal.uint) : str :=
  match d with
  | Decimal.Nil => []
  | Decimal.D0 d => 48%N :: uint_chars d
  | Decimal.D1 d => 49%N :: uint_chars d
  | Decimal.D2 d => 50%N :: uint_chars d
  | Decimal.D3 d => 51%N :: uint_chars d
  | Decimal.D4 d => 52%N :: uint_chars d
  | Decimal.D5 d => 53%N :: uint_chars d
  | Decimal.D6 d => 54%N :: uint_chars d
  | Decimal.D7 d => 55%N :: uint_chars d
  | Decimal.D8 d => 56%N :: uint_chars d
  | Decimal.D9 d => 57%N :: uint_chars d
  end.

Definition decimal (n : N) : str := uint_chars (N.to_uint n).

(* ===================================================================== *)
(** ** Regular expressions *)
(* ===================================================================== *)

(** The patterns of the source use literals, classes, concatenation,
    alternation, the quantifiers [*], [+], [?], [{n,}] and the anchors [^]
    and [$] at the two ends; [RegExp.prototype.test] is then membership in
    a regular language, decided here with Brzozowski derivatives. *)

Inductive regex : Type :=
| Void
| Eps
| Cls (p : char -> bool)
| Cat (r1 r2 : regex)
| Alt (r1 r2 : regex)
| Star (r : regex).

Inductive matches : regex -> str -> Prop :=
| MEps : matches Eps []
| MCls p c : p c = true -> matches (Cls p) [c]
| MCat r1 r2 s1 s2 :
    matches r1 s1 -> matches r2 s2 -> matches (Cat r1 r2) (s1 ++ s2)
| MAltL r1 r2 s : matches r1 s -> matches (Alt r1 r2) s
| MAltR r1 r2 s : matches r2 s -> matches (Alt r1 r2) s
| MStar0 r : matches (Star r) []
| MStarS r s1 s2 :
    matches r s1 -> matches (Star r) s2 -> matches (Star r) (s1 ++ s2).

Fixpoint nullable (r : regex) : bool :=
  match r with
  | Void => false
  | Eps => true
  | Cls _ => false
  | Cat r1 r2 => nullable r1 && nullable r2
  | Alt r1 r2 => nullable r1 || nullable r2
  | Star _ => true
  end.

(** Constructors that drop dead branches, to keep derivatives small. *)
Definition cat (r1 r2 : regex) : regex :=
  match r1, r2 with
  | Void, _ => Void
  | _, Void => Void
  | Eps, _ => r2
  | _, _ => Cat r1 r2
  end.

Definition alt (r1 r2 : regex) : regex :=
  match r1, r2 with
  | Void, _ => r2
  | _, Void => r1
  | _, _ => Alt r1 r2
  end.

Fixpoint deriv (c : char) (r : regex) : regex :=
  match r with
  | Void => Void
  | Eps => Void
  | Cls p => if p c then Eps else Void
  | Cat r1 r2 =>
      alt (cat (deriv c r1) r2) (if nullable r1 then deriv c r2 else Void)
  | Alt r1 r2 => alt (deriv c r1) (deriv c r2)
  | Star r1 => cat (deriv c r1) (Star r1)
  end.

Fixpoint matchb (r : regex) (s : str) : bool :=
  match s with
  | [] => nullable r
  | c :: s' => matchb (deriv c r) s'
  end.

(** Derived forms. *)
Definition Plus (r : regex) : regex := Cat r (Star r).          (* r+ *)
Definition Opt (r : regex) : regex := Alt r Eps.                (* r? *)
Fixpoint Rep (n : nat) (r : regex) : regex :=                   (* r{n} *)
  match n with O => Eps | S n' => Cat r (Rep n' r) end.
Definition AtLeast (n : nat) (r : regex) : regex := Cat (Rep n r) (Star r). (* r{n,} *)
Fixpoint Lit (s : str) : regex :=                               (* literal text *)
  match s with [] => Eps | c :: s' => Cat (Cls (Ch.one c)) (Lit s') end.
Fixpoint Seq (rs : list regex) : regex :=
  match rs with [] => Eps | r :: rs' => Cat r (Seq rs') end.
Fixpoint Alts (rs : list regex) : regex :=
  match rs with [] => Void | r :: rs' => Alt r (Alts rs') end.
Definition Any : regex := Star (Cls (fun _ => true)).           (* any text *)

(** The [i] flag: the pattern only has ASCII characters, and without the
    [u] flag an ASCII letter is matched by exactly its two cases. *)
Fixpoint ci (r : regex) : regex :=
  match r with
  | Void => Void
  | Eps => Eps
  | Cls p => Cls (fun c => p c || p (Ch.swapcase c))
  | Cat r1 r2 => Cat (ci r1) (ci r2)
  | Alt r1 r2 => Alt (ci r1) (ci r2)
  | Star r1 => Star (ci r1)
  end.

(** A pattern is its body plus the anchors at its two ends. *)
Record pattern : Type := Pat { p_start : bool; p_body : regex; p_end : bool }.

Definition compile (p : pattern) : regex :=
  Cat (if p_start p then Eps else Any)
      (Cat (p_body p) (if p_end p then Eps else Any)).

(** [pattern.test(s)]. *)
Definition test (p : pattern) (s : str) : bool := matchb (compile p) s.

Definition full (r : regex) : pattern := Pat true r true.     (* /^r$/ *)
Definition pre (r : regex) : pattern := Pat true r false.     (* /^r/  *)
Definition suf (r : regex) : pattern := Pat false r true.     (* /r$/  *)
Definition anywhere (r : regex) : pattern := Pat false r false. (* /r/ *)

(** [s.replace(/[cls]/g, '')]: delete every code unit of a class. *)
Definition strip (p : char -> bool) (s : str) : str :=
  List.filter (fun c => negb (p c)) s.

(** [s.replace(/\s+/g, '_')]: every maximal run of white space becomes one
    underscore. *)
Fixpoint collapse_from (in_run : bool) (s : str) : str :=
  match s with
  | [] => []
  | c :: r =>
      if Ch.space c
      then (if in_run then collapse_from true r
            else 95%N :: collapse_from true r)
      else c :: collapse_from false r
  end.

Definition collapse_ws (s : str) : str := collapse_from false s.

(* ===================================================================== *)
(** ** Paths ([path.basename], [path.extname], [path.join], POSIX) *)
(* ===================================================================== *)

Module Path.
Definition slash : char := 47%N.
Definition dot : char := 46%N.

(** The last component of a path, trailing slashes ignored. *)
Definition base (p : str) : str :=
  List.last (split_on slash (rev (dropWhile (Ch.one slash) (rev p)))) [].

(** Index of the last occurrence of [c] in [s]. *)
Fixpoint lastIndexOf (c : char) (s : str) : option nat :=
  match s with
  | [] => None
  | d :: r =>
      match lastIndexOf c r with
      | Some i => Some (S i)
      | None => if N.eqb d c then Some O else None
      end
  end.

(** [path.extname]: from the last dot of the last component on; empty when
    there is no dot, when the dot comes first, or for [..]. *)
Definition extname (p : str) : str :=
  let b := base p in
  match lastIndexOf dot b with
  | None => []
  | Some O => []
  | Some i => if str_eqb b [dot; dot] then [] else drop i b
  end.

(** [path.basename(p, ext)]. *)
Definition basename (p ext : str) : str :=
  let b := base p in
  match ext with
  | [] => b
  | _ :: _ =>
      if endsWith ext b && negb (str_eqb ext b)
      then take (length b - length ext) b
      else b
  end.

(** [path.dirname]: the path up to the slash before the last component. *)
Definition dirname (p : str) : str :=
  let hasRoot := startsWith [slash] p in
  match lastIndexOf slash (rev (dropWhile (Ch.one slash) (rev p))) with
  | Some (S i) => if hasRoot && Nat.eqb i 0 then [slash; slash] else take (S i) p
  | _ => if hasRoot then [slash] else [dot]
  end.

(** [path.join(dir, file)] for a normalized [dir] and a relative [file]. *)
Definition join (dir file : str) : str := dir ++ [slash] ++ file.
End Path.

(* ===================================================================== *)
(** ** The extractor: configuration and session state *)
(* ===================================================================== *)

(** [this.options], as the command line passes it. *)
Record options : Type := Options {
  srcPath : str;
  outputPath : str;
  locale : str;
  keyPrefix : str;
  replace : bool;
}.

(** [this.extractedTexts] is a [Map]: insertion-ordered, one entry per key.
    [Map.prototype.set] overwrites the value of a key already present and
    appends otherwise. *)
Fixpoint map_set (k v : str) (m : list (str * str)) : list (str * str) :=
  match m with
  | [] => [(k, v)]
  | (k', v') :: r =>
      if str_eqb k k' then (k, v) :: r else (k', v') :: map_set k v r
  end.

(** The mutable fields of a [TextExtractor]. *)
Record session : Type := Session {
  extractedTexts : list (str * str);
  keyCounter : N;
  currentComponentContext : option str;
}.

(** [new TextExtractor(options)]. *)
Definition new_session : session :=
  {| extractedTexts := []; keyCounter := 1; currentComponentContext := None |}.

(* ===================================================================== *)
(** ** Key generator *)
(* ===================================================================== *)

Definition componentSuffixes : list string :=
  ["component"; "service"; "directive"; "pipe"; "guard"; "resolver";
   "module"; "spec"; "test"]%string.

(** [name.replace(/\.(component|...|test)$/i, '')]. *)
Definition stripSuffix (name : str) : str :=
  match List.find (fun w => endsWith (46%N :: u w) (map Ch.to_lower name))
                  componentSuffixes with
  | Some w => take (length name - S (length (u w))) name
  | None => name
  end.

(** [name.replace(/^(app-|ng-)/i, '')]. *)
Definition stripPrefix (name : str) : str :=
  if startsWith (u "app-") (map Ch.to_lower name) then drop 4 name
  else if startsWith (u "ng-") (map Ch.to_lower name) then drop 3 name
  else name.

(** [word.charAt(0).toUpperCase() + word.slice(1)]. *)
Definition capitalize (w : str) : str :=
  match w with
  | [] => []
  | c :: r => Ch.to_upper c :: r
  end.

Definition camelize (words : list str) : str :=
  match words with
  | [] => []
  | w :: ws => join (w :: map capitalize ws)
  end.

Definition extractComponentName (filePath : str) : str :=
  let fileName := Path.basename filePath (Path.extname filePath) in
  let componentName := stripPrefix (stripSuffix fileName) in
  let camelCase := camelize (split_on 45%N componentName) in
  if Nat.ltb 15 (length camelCase) then
    let abbreviated :=
      toLowerCase (join (map (take 1) (split_on 45%N componentName))) in
    if Nat.leb 2 (length abbreviated) then abbreviated
    else substring0 10 camelCase
  else
    match camelCase with
    | [] => u "comp"
    | _ :: _ => camelCase
    end.

Definition setComponentContext (filePath : str) (s : session) : session :=
  {| extractedTexts := extractedTexts s;
     keyCounter := keyCounter s;
     currentComponentContext := Some (extractComponentName filePath) |}.

(** The slug of a text: trimmed, lower-cased, only [a-zA-Z0-9] and white
    space kept, white-space runs turned into [_], at most 25 code units. *)
Definition cleanText (text : str) : str :=
  substring0 25
    (collapse_ws
       (strip (fun c => negb (Ch.alnum c || Ch.space c))
          (toLowerCase (trim text)))).

(** A string is truthy when it is not empty. *)
Definition truthy (o : option str) : option str :=
  match o with
  | Some (_ :: _) => o
  | _ => None
  end.

Definition contextPart (componentContext : option str) : str :=
  match truthy componentContext with
  | Some c => c ++ [46%N]
  | None => []
  end.

(** [generateKey(text, filePath = null)]: the key, and the session with its
    counter post-incremented. *)
Definition generateKey (o : options) (text : str) (filePath : option str)
    (s : session) : str * session :=
  let componentContext :=
    match truthy filePath with
    | Some f => Some (extractComponentName f)
    | None => currentComponentContext s
    end in
  (keyPrefix o ++ [46%N] ++ contextPart componentContext ++ cleanText text
     ++ [95%N] ++ decimal (keyCounter s),
   {| extractedTexts := extractedTexts s;
      keyCounter := keyCounter s + 1;
      currentComponentContext := currentComponentContext s |}).

(* ===================================================================== *)
(** ** Text classifier *)
(* ===================================================================== *)

Module Re.
(** Short names for writing the patterns of the source. *)
Definition L (s : string) : regex := Lit (u s).
Definition words (ws : list string) : regex := Alts (map L ws).
Definition w : regex := Cls Ch.word.                                 (* \w *)
Definition d : regex := Cls Ch.digit.                                (* \d *)
Definition dot : regex := Cls Ch.dot.                                (* .  *)
Definition wdash : regex := Cls (fun c => Ch.word c || Ch.oneof "-" c). (* [\w-] *)
Definition pathch : regex :=                                         (* [\/\w.-] *)
  Cls (fun c => Ch.word c || Ch.oneof "/.-" c).
Definition ident0 : regex :=                                         (* [a-zA-Z_$] *)
  Cls (fun c => Ch.alpha c || Ch.oneof "_$" c).
Definition ident : regex :=                                          (* [a-zA-Z0-9_$] *)
  Cls (fun c => Ch.alnum c || Ch.oneof "_$" c).
Definition const0 : regex :=                                         (* [A-Z_] *)
  Cls (fun c => Ch.upper c || Ch.oneof "_" c).
Definition const : regex :=                                          (* [A-Z0-9_] *)
  Cls (fun c => Ch.upper c || Ch.digit c || Ch.oneof "_" c).
Definition keych : regex :=                                          (* [a-zA-Z0-9_.] *)
  Cls (fun c => Ch.alnum c || Ch.oneof "_." c).
Definition hex : regex :=                                            (* [0-9a-fA-F] *)
  Cls (fun c => Ch.digit c || Ch.in_range 97 102 c || Ch.in_range 65 70 c).
Definition lhex : regex :=                                           (* [a-f0-9] *)
  Cls (fun c => Ch.in_range 97 102 c || Ch.digit c).
Definition alnumdash : regex :=                                      (* [a-zA-Z0-9-] *)
  Cls (fun c => Ch.alnum c || Ch.oneof "-" c).
Definition punct : regex :=                              (* [0-9\s\-_.,;:!?()[\]{}] *)
  Cls (fun c => Ch.digit c || Ch.space c || Ch.oneof "-_.,;:!?()[]{}" c).
End Re.
Import Re.

(** /^[a-zA-Z_$][a-zA-Z0-9_$]*$/ *)
Definition reIdentifier : pattern := full (Cat ident0 (Star ident)).

(** /^[A-Z_][A-Z0-9_]*$/ *)
Definition reConstant : pattern := full (Cat const0 (Star const)).

(** [isExcluded(text)]. *)
Definition isExcluded (text : str) : bool :=
  let trimmed := trim text in
  Nat.eqb (length trimmed) 0
  || Nat.ltb (length trimmed) 2
  || test (full (Star (Cls Ch.space))) trimmed            (* /^\s*$/ *)
  || test (full (Plus punct)) trimmed.          (* /^[0-9\s\-_.,;:!?()[\]{}]+$/ *)

(** [isCodeIdentifier(text)]. *)
Definition isCodeIdentifier (text : str) : bool :=
  test reIdentifier text
  && negb (test (full (ci (words
       ["error"; "warning"; "info"; "success"; "message"; "title"; "name";
        "label"; "button"; "link"; "text"; "content"]%string))) text).

(** The [technicalPatterns] of [isUserFacingErrorMessage]. *)
Definition technicalPatterns : list pattern :=
  [ (* /undefined|null|NaN|TypeError|ReferenceError/ *)
    anywhere (words ["undefined"; "null"; "NaN"; "TypeError"; "ReferenceError"]%string);
    (* /failed to|cannot|unable to.*\w+\(\)/ *)
    anywhere (Alts [L "failed to"; L "cannot";
                    Seq [L "unable to"; Star dot; Plus w; L "()"]]);
    (* /^[A-Z_][A-Z0-9_]*$/ *)
    reConstant;
    (* /\w+\.\w+|\w+\(\)/ *)
    anywhere (Alts [Seq [Plus w; L "."; Plus w]; Seq [Plus w; L "()"]]) ].

(** /[a-z].*[a-z]/ *)
Definition reTwoLower : pattern :=
  anywhere (Seq [Cls Ch.lower; Star dot; Cls Ch.lower]).

(** [isUserFacingErrorMessage(text)]. *)
Definition isUserFacingErrorMessage (text : str) : bool :=
  negb (existsb (fun p => test p text) technicalPatterns)
  && Nat.ltb 10 (length text)
  && test reTwoLower text.

(** The [codePatterns] of [isDisplayText], in the order of the source. *)
Definition codePatterns : list pattern :=
  [ (* Package/module names *)
    full (Seq [L "@"; Plus wdash; L "/"; Plus wdash]);   (* /^@[\w-]+\/[\w-]+$/ *)
    full (Seq [Plus wdash; L "/"; Plus wdash]);          (* /^[\w-]+\/[\w-]+$/ *)
    (* File paths and URLs *)
    pre (Seq [L "http"; Opt (L "s"); L "://"]);          (* /^https?:\/\// *)
    pre (L "ftp://");                                    (* /^ftp:\/\// *)
    pre (L "file://");                                   (* /^file:\/\// *)
    pre (Seq [Plus w; L "://"]);                         (* /^\w+:\/\// *)
    full (Seq [L "/"; Star pathch]);                     (* /^\/[\/\w.-]*$/ *)
    full (Seq [L "."; Opt (L "."); L "/"; Star pathch]); (* /^\.{1,2}\/[\/\w.-]*$/ *)
    pre (Seq [Cls Ch.alpha; L ":"; Cls (Ch.oneof "\/")]); (* /^[a-zA-Z]:[\\\/]/ *)
    pre (L "~/");                                        (* /^~\// *)
    suf (ci (Seq [L "."; words ["js"; "ts"; "html"; "css"; "scss"; "json";
                                "xml"; "yml"; "yaml"]%string]));
                                  (* /\.(js|ts|html|css|scss|json|xml|yml|yaml)$/i *)
    anywhere (L "/api/");                                (* /\/api\// *)
    anywhere (L "/assets/");                             (* /\/assets\// *)
    full (Seq [L "./"; Star dot; L ".";
               words ["js"; "ts"; "html"; "css"]%string]); (* /^\.\/.*\.(js|ts|html|css)$/ *)
    (* Code identifiers and selectors *)
    reIdentifier;                                        (* /^[a-zA-Z_$][a-zA-Z0-9_$]*$/ *)
    reConstant;                                          (* /^[A-Z_][A-Z0-9_]*$/ *)
    pre (Seq [Plus w; L "."; Plus w]);                   (* /^\w+\.\w+/ *)
    full (Seq [L "app-"; Plus wdash]);                   (* /^app-[\w-]+$/ *)
    (* Template strings and interpolations *)
    full (Seq [L "{{"; Star dot; L "}}"]);               (* /^\{\{.*\}\}$/ *)
    full (Seq [L "${"; Star dot; L "}"]);                (* /^\$\{.*\}$/ *)
    (* Technical strings *)
    full (Plus d);                                       (* /^\d+$/ *)
    full (Seq [L "#"; Plus hex]);                        (* /^#[0-9a-fA-F]+$/ *)
    full (Seq [Plus (Cls Ch.alpha); L ":"; Plus alnumdash]); (* /^[a-zA-Z]+:[a-zA-Z0-9-]+$/ *)
    full (Seq [Plus wdash; L "."; Plus wdash]);          (* /^[\w-]+\.[\w-]+$/ *)
    (* Angular/TypeScript specific *)
    pre (Seq [L "ng"; Cls Ch.upper]);                    (* /^ng[A-Z]/ *)
    suf (words ["Component"; "Service"; "Directive"; "Pipe"; "Guard";
                "Resolver"; "Module"]%string);
                 (* /Component$|Service$|Directive$|Pipe$|Guard$|Resolver$|Module$/ *)
    pre (Seq [words ["app"; "src"]%string; L "/"]);      (* /^(app|src)\// *)
    (* Common technical constants *)
    full (ci (words ["utf-8"; "utf8"; "ascii"; "base64"; "json"; "xml";
                     "html"; "css"; "js"; "ts"]%string));
                        (* /^(utf-8|utf8|ascii|base64|json|xml|html|css|js|ts)$/i *)
    full (words ["GET"; "POST"; "PUT"; "DELETE"; "PATCH"; "HEAD"; "OPTIONS"]%string);
                                 (* /^(GET|POST|PUT|DELETE|PATCH|HEAD|OPTIONS)$/ *)
    pre (words ["localhost"; "127.0.0.1"]%string);       (* /^(localhost|127\.0\.0\.1)/ *)
    (* Version strings and technical IDs *)
    pre (Seq [Plus d; L "."; Plus d; Opt (Seq [L "."; Plus d])]); (* /^\d+\.\d+(\.\d+)?/ *)
    full (AtLeast 8 lhex);                               (* /^[a-f0-9]{8,}$/ *)
    (* Class selectors and technical strings *)
    full (Seq [L "."; Plus wdash]);                      (* /^\.[\w-]+$/ *)
    full (Seq [L "#"; Plus wdash]);                      (* /^#[\w-]+$/ *)
    (* Constants and technical error codes *)
    reConstant ].                                        (* /^[A-Z_][A-Z0-9_]*$/ *)

(** The [context] argument of [isDisplayText]: the flags it reads. *)
Record context : Type := Context {
  isImport : bool;
  isRequire : bool;
  isDecorator : bool;
  isComponentDecorator : bool;
  isConsole : bool;
  isThrow : bool;
}.

(** The three rejections made before the context is looked at. *)
Definition looksLikeKey (trimmed : str) : bool :=
  test (full (Plus keych)) trimmed && includes (u ".") trimmed.

Definition looksLikeTemplate (trimmed : str) : bool :=
  test (full (Seq [L "${"; Star dot; L "}"])) trimmed           (* /^\$\{.*\}$/ *)
  || test (anywhere (Seq [L "assets/i18n/"; Star dot; L ".json"])) trimmed.
                                                     (* /assets\/i18n\/.*\.json/ *)

Definition hasInterpolation (trimmed : str) : bool :=
  includes (u "${") trimmed && includes (u "}") trimmed.

(** The part of [isDisplayText] after the context checks. *)
Definition passesPatterns (trimmed : str) : bool :=
  if existsb (fun p => test p trimmed) codePatterns then false
  else if Nat.ltb (length trimmed) 3 then false
  else if negb (includes (u " ") trimmed) && Nat.ltb (length trimmed) 5
          && isCodeIdentifier trimmed then false
  else true.

(** [isDisplayText(text, context = null)]. *)
Definition isDisplayText (text : str) (ctx : option context) : bool :=
  let trimmed := trim text in
  if looksLikeKey trimmed then false
  else if looksLikeTemplate trimmed then false
  else if hasInterpolation trimmed then false
  else
    match ctx with
    | Some c =>
        if isImport c || isRequire c then false
        else if isDecorator c || isComponentDecorator c then false
        else if isConsole c then false
        else if isThrow c then isUserFacingErrorMessage trimmed
        else passesPatterns trimmed
    | None => passesPatterns trimmed
    end.

(** [htmlContent.replace(/<[^>]*>/g, [])]: every tag is deleted, scanning
    from the left; a [<] with no [>] after it is kept. *)
Fixpoint stripTags_fuel (fuel : nat) (s : str) : str :=
  match fuel with
  | O => s
  | S fuel' =>
      match s with
      | [] => []
      | c :: r =>
          if N.eqb c 60 && includes (u ">") r
          then stripTags_fuel fuel' (drop 1 (dropWhile (fun x => negb (N.eqb x 62)) r))
          else c :: stripTags_fuel fuel' r
      end
  end.

Definition stripTags (s : str) : str := stripTags_fuel (length s) s.

(** [containsTranslatableText(htmlContent)]. *)
Definition containsTranslatableText (htmlContent : str) : bool :=
  let textOnly := trim (stripTags htmlContent) in
  if includes (u "{{ '") textOnly && includes (u "' | translate }}") textOnly
  then false
  else Nat.ltb 0 (length textOnly) && negb (isExcluded textOnly)
       && isDisplayText textOnly None.



(* ===================================================================== *)
(** ** Markup tree *)
(* ===================================================================== *)

(** The node tree [cheerio.load] builds.  A node is identified by its path,
    the child indices leading to it from the root. *)
Inductive node : Type :=
| Text (data : str)
| Comment (data : str)
| Elem (name : str) (attribs : list (str * str)) (children : list node).

Definition path := list nat.

(** [$el.text()]: the text nodes below a node, in document order. *)
Fixpoint text_of (n : node) : str :=
  match n with
  | Text d => d
  | Comment _ => []
  | Elem _ _ cs => flat_map text_of cs
  end.

(** A node that is an element, followed by the elements below it, in
    document order, each with its path. *)
Fixpoint elems_at (p : path) (n : node) {struct n} : list (path * node) :=
  match n with
  | Elem _ _ cs =>
      (p, n) ::
      (fix go (i : nat) (l : list node) {struct l} : list (path * node) :=
         match l with
         | [] => []
         | c :: l' => elems_at (p ++ [i]) c ++ go (S i) l'
         end) O cs
  | _ => []
  end.

(** [$('*')]: every element of the document. *)
Definition elements (doc : list node) : list (path * node) :=
  concat (imap (fun i c => elems_at [i] c) doc).

(** [$el.find('*')]: the elements strictly below an element. *)
Definition descendants (el : path * node) : list (path * node) :=
  tail (elems_at (fst el) (snd el)).

Definition tag (n : node) : str :=
  match n with Elem nm _ _ => nm | _ => [] end.

Definition attrs (n : node) : list (str * str) :=
  match n with Elem _ a _ => a | _ => [] end.

Definition kids (n : node) : list node :=
  match n with Elem _ _ cs => cs | _ => [] end.

(** [$(tagName)]. *)
Definition select (tagName : str) (doc : list node) : list (path * node) :=
  List.filter (fun el => str_eqb (tag (snd el)) tagName) (elements doc).

(** [$el.find('a, b, ...')]. *)
Definition find (tags : list string) (el : path * node) : list (path * node) :=
  List.filter (fun d => existsb (fun t => str_eqb (tag (snd d)) (u t)) tags)
              (descendants el).

(** Attribute objects: [attribs[name]] and [attribs[name] = value]. *)
Fixpoint attr_get (name : str) (a : list (str * str)) : option str :=
  match a with
  | [] => None
  | (k, v) :: r => if str_eqb k name then Some v else attr_get name r
  end.

Definition attr_set (name value : str) (a : list (str * str)) : list (str * str) :=
  map_set name value a.

(** Rewriting the node at a path. *)
Fixpoint update_at (f : node -> node) (p : path) (l : list node) : list node :=
  match p with
  | [] => l
  | [i] => alter f i l
  | i :: p' =>
      alter (fun n => match n with
                      | Elem nm a cs => Elem nm a (update_at f p' cs)
                      | _ => n
                      end) i l
  end.

Definition set_children (cs : list node) (n : node) : node :=
  match n with Elem nm a _ => Elem nm a cs | _ => n end.

Definition set_attribs (a : list (str * str)) (n : node) : node :=
  match n with Elem nm _ cs => Elem nm a cs | _ => n end.

(* ===================================================================== *)
(** ** The world outside: cheerio, the file system, the console *)
(* ===================================================================== *)

Record metadata : Type := Metadata {
  extractedAt : str;
  totalTexts : nat;
  metaKeyPrefix : str;
}.

(** The object [saveToJSON] serialises. *)
Record artifact : Type := Artifact {
  artLocale : str;
  translations : list (str * str);
  meta : metadata;
}.

(** The libraries the extractor calls: the markup parser and serialiser,
    file discovery, the clock and the JSON writer. *)
Class Platform : Type := {
  (** [cheerio.load(content, ...)]: the children of the document root. *)
  cheerio_load : str -> list node;
  (** [$.html()] and [$el.html()]: nodes back to markup. *)
  cheerio_html : list node -> str;
  (** the nodes [$el.html(markup)] parses [markup] into. *)
  cheerio_fragment : str -> list node;
  (** [glob.sync(pattern, { cwd })] on the files present. *)
  glob_sync : gmap str str -> str -> str -> list str;
  (** [new Date().toISOString()]. *)
  date_now : str;
  (** [JSON.stringify(output, null, 2)]. *)
  json_stringify : artifact -> str;
}.

Inductive console_line : Type :=
| Log (args : list str)
| Warn (args : list str).

(** Files by path, the paths that cannot be written, what was printed, and
    the paths [fs.writeFile] was called on (oldest first). *)
Record world : Type := World {
  files : gmap str str;
  readonly : gset str;
  console : list console_line;
  written : list str;
}.

Record error : Type := Error { message : str }.

(** Effects: a computation reads and updates the extractor and the world,
    and either returns or throws; what it changed before throwing stays. *)
Record state : Type := State { sess : session; wld : world }.

Inductive outcome (A : Type) : Type :=
| Ok (a : A)
| Throw (e : error).
Arguments Ok {A} a.
Arguments Throw {A} e.

Definition M (A : Type) : Type := state -> outcome A * state.

Definition ret {A} (a : A) : M A := fun st => (Ok a, st).

Definition bind {A B} (m : M A) (k : A -> M B) : M B :=
  fun st =>
    match m st with
    | (Ok a, st') => k a st'
    | (Throw e, st') => (Throw e, st')
    end.

Definition throw {A} (e : error) : M A := fun st => (Throw e, st).

(** [try { m } catch (error) { h(error) }]. *)
Definition try_catch (m : M unit) (h : error -> M unit) : M unit :=
  fun st =>
    match m st with
    | (Ok tt, st') => (Ok tt, st')
    | (Throw e, st') => h e st'
    end.

Declare Scope m_scope.
Delimit Scope m_scope with M.
Notation "'let*' x ':=' m 'in' k" := (bind m (fun x => k))
  (at level 10, x name, m at level 100, k at level 200) : m_scope.
Notation "m ;; k" := (bind m (fun _ => k))
  (at level 100, k at level 200, right associativity) : m_scope.

Definition get_session : M session := fun st => (Ok (sess st), st).
Definition put_session (s : session) : M unit :=
  fun st => (Ok tt, {| sess := s; wld := wld st |}).
Definition get_world : M world := fun st => (Ok (wld st), st).
Definition put_world (w : world) : M unit :=
  fun st => (Ok tt, {| sess := sess st; wld := w |}).

(** The errors of the file system: a missing file, a refused write. *)
Definition enoent (p : str) : error :=
  Error (u "ENOENT: no such file or directory, open '" ++ p ++ u "'").
Definition eacces (p : str) : error :=
  Error (u "EACCES: permission denied, open '" ++ p ++ u "'").

(** [fs.readFile(path, 'utf8')]. *)
Definition readFile (p : str) : M str :=
  (let* w := get_world in
   match files w !! p with
   | Some content => ret content
   | None => throw (enoent p)
   end)%M.

(** [fs.writeFile(path, content, 'utf8')]. *)
Definition writeFile (p content : str) : M unit :=
  (let* w := get_world in
   if bool_decide (p ∈ readonly w)
   then throw (eacces p)
   else put_world {| files := <[p := content]> (files w);
                     readonly := readonly w;
                     console := console w;
                     written := written w ++ [p] |})%M.

(** [fs.mkdir(dir, { recursive: true })]: directories are not part of the
    file map. *)
Definition mkdir (dir : str) : M unit := ret tt.

Definition print (l : console_line) : M unit :=
  (let* w := get_world in
   put_world {| files := files w;
                readonly := readonly w;
                console := console w ++ [l];
                written := written w |})%M.

Definition console_log (args : list str) : M unit := print (Log args).
Definition console_warn (args : list str) : M unit := print (Warn args).

(* ===================================================================== *)
(** ** Markup extractor *)
(* ===================================================================== *)

(** [this.extractedTexts.set(key, value)]. *)
Definition setText (key value : str) (s : session) : session :=
  {| extractedTexts := map_set key value (extractedTexts s);
     keyCounter := keyCounter s;
     currentComponentContext := currentComponentContext s |}.

(** [const key = this.generateKey(text); this.extractedTexts.set(key, value)]:
    the key, and the session afterwards. *)
Definition extract (o : options) (text value : str) (s : session) : str * session :=
  let '(key, s') := generateKey o text None s in
  (key, setText key value s').

(** The placeholder written in place of an extracted text. *)
Definition placeholder (key : str) : str :=
  u "{{ '" ++ key ++ u "' | translate }}".

Definition contentElements : list string :=
  ["button"; "a"; "label"; "h1"; "h2"; "h3"; "h4"; "h5"; "h6"; "p"; "li";
   "td"; "th"; "span"; "strong"; "em"; "b"; "i"]%string.

(** An entry of [modifications]. *)
Record modification : Type := Modification {
  element : path;
  key : str;
  replaceEntireContent : bool;
}.

(** What the first loop of [extractFromHtmlTemplate] carries along. *)
Record pass : Type := Pass {
  passSession : session;
  modifications : list modification;
  processedElements : list path;
}.

(** [Object.keys(attribs).some(attr => ...)]. *)
Definition hasAngularDirectives (n : node) : bool :=
  existsb (fun attr =>
             startsWith (u "*ng") attr
             || startsWith (u "[") attr
             || startsWith (u "(") attr
             || includes (u "{{") attr
             || test (pre (words ["ngIf"; "ngFor"; "ngClass"; "ngStyle";
                                  "routerLink"]%string)) attr)
          (map fst (attrs n)).

Section Extractor.
Context `{Platform}.
Variable o : options.

(** The callback of [$(tagName).each(...)] in the first loop. *)
Definition visitElement (tagName : string) (el : path * node) (st : pass) : pass :=
  if bool_decide (fst el ∈ processedElements st) then st
  else if existsb (String.eqb tagName) ["div"; "span"]%string
          && Nat.ltb 0 (length (find ["p"; "li"; "h1"; "h2"; "h3"; "h4"; "h5";
                                      "h6"; "button"; "label"; "a"]%string el))
  then st
  else
    let fullText := trim (text_of (snd el)) in
    if Nat.eqb (length fullText) 0 || isExcluded fullText then st
    else if includes (u "{{ '") fullText
            && includes (u "' | translate }}") fullText then st
    else if includes (u "{{") fullText && includes (u "}}") fullText then st
    else if hasAngularDirectives (snd el) then st
    else
      let hasChildElements := Nat.ltb 0 (length (descendants el)) in
      let htmlContent := cheerio_html (kids (snd el)) in
      if hasChildElements && containsTranslatableText htmlContent then
        let '(k, s') := extract o fullText htmlContent (passSession st) in
        {| passSession := s';
           modifications :=
             if replace o
             then modifications st ++ [Modification (fst el) k true]
             else modifications st;
           processedElements :=
             processedElements st ++ fst el :: map fst (descendants el) |}
      else if negb hasChildElements then
        if negb (isExcluded fullText) then
          let '(k, s') := extract o fullText fullText (passSession st) in
          {| passSession := s';
             modifications :=
               if replace o
               then modifications st ++ [Modification (fst el) k false]
               else modifications st;
             processedElements := processedElements st ++ [fst el] |}
        else
          {| passSession := passSession st;
             modifications := modifications st;
             processedElements := processedElements st ++ [fst el] |}
      else st.

(** [contentElements.forEach(tagName => $(tagName).each(...))]. *)
Definition contentPass (doc : list node) (s : session) : pass :=
  fold_left
    (fun st tagName => fold_left (fun st' el => visitElement tagName el st')
                                 (select (u tagName) doc) st)
    contentElements
    {| passSession := s; modifications := []; processedElements := [] |}.

Definition attributes : list string :=
  ["title"; "alt"; "placeholder"; "aria-label"]%string.

(** The callback of [attributes.forEach(attr => ...)] for one element:
    the session and the element's attributes afterwards. *)
Definition visitAttribute (attr : string)
    (st : session * list (str * str)) : session * list (str * str) :=
  let '(s, a) := st in
  match attr_get (u attr) a with
  | Some attrValue =>
      if Nat.ltb 0 (length attrValue) && Nat.ltb 0 (length (trim attrValue))
         && negb (isExcluded attrValue) then
        if includes (u "{{") attrValue || includes (u "}}") attrValue
           || includes (u "[") attrValue || includes (u "(") attrValue
        then st
        else
          let '(k, s') := extract o attrValue attrValue s in
          (s', if replace o then attr_set (u attr) (placeholder k) a else a)
      else st
  | None => st
  end.

(** The callback of [$('*').each(...)] in the second loop.  Only this
    callback writes the attributes of its element, so it reads them from
    the element as loaded. *)
Definition visitAttributes (el : path * node)
    (st : session * list node) : session * list node :=
  let '(s', a') := fold_left (fun acc attr => visitAttribute attr acc)
                             attributes (fst st, attrs (snd el)) in
  (s', if replace o then update_at (set_attribs a') (fst el) (snd st)
       else snd st).

Definition attributePass (doc : list node) (s : session) : session * list node :=
  fold_left (fun st el => visitAttributes el st) (elements doc) (s, doc).

(** [modifications.forEach(mod => ...)]. *)
Definition applyModification (doc : list node) (m : modification) : list node :=
  update_at
    (set_children (if replaceEntireContent m
                   then cheerio_fragment (placeholder (key m))
                   else [Text (placeholder (key m))]))
    (element m) doc.

Definition wrapperOpen : str := u "<html><head></head><body>".
Definition wrapperClose : str := u "</body></html>".

(** Removal of the wrapper cheerio adds: [slice(25, -14)]. *)
Definition unwrap (modifiedHtml : str) : str :=
  if startsWith wrapperOpen modifiedHtml && endsWith wrapperClose modifiedHtml
  then take (length modifiedHtml - 14 - 25) (drop 25 modifiedHtml)
  else modifiedHtml.

(** The chain of [.replace(/.../g, ...)] restoring directive case. *)
Definition restoreDirectiveCase (modifiedHtml : str) : str :=
  replaceAll (u "[routerlink]=") (u "[routerLink]=")
    (replaceAll (u "routerlink=") (u "routerLink=")
      (replaceAll (u "[ngstyle]=") (u "[ngStyle]=")
        (replaceAll (u "[ngclass]=") (u "[ngClass]=")
          (replaceAll (u "*ngswitch=") (u "*ngSwitch=")
            (replaceAll (u "*ngfor=") (u "*ngFor=")
              (replaceAll (u "*ngif=") (u "*ngIf=") modifiedHtml)))))).

(** The body of the [try] block of [extractFromHtmlTemplate]. *)
Definition processHtmlTemplate (filePath : str) : M unit :=
  (let* s0 := get_session in
   put_session (setComponentContext filePath s0);;
   let* content := readFile filePath in
   let doc := cheerio_load content in
   let* s1 := get_session in
   let st := contentPass doc s1 in
   let '(s2, doc2) := attributePass doc (passSession st) in
   put_session s2;;
   if replace o then
     let doc3 := fold_left applyModification (modifications st) doc2 in
     let modifiedHtml := restoreDirectiveCase (unwrap (cheerio_html doc3)) in
     writeFile filePath modifiedHtml
   else ret tt)%M.

(** [async extractFromHtmlTemplate(filePath)]. *)
Definition extractFromHtmlTemplate (filePath : str) : M unit :=
  try_catch (processHtmlTemplate filePath)
    (fun e =>
       console_warn [u "Warning: Could not process HTML template "
                       ++ filePath ++ u ":"; message e]).

(** The [for (const file of htmlFiles)] loop. *)
Fixpoint forEachFile (dirPath : str) (htmlFiles : list str) : M unit :=
  match htmlFiles with
  | [] => ret tt
  | file :: rest =>
      (extractFromHtmlTemplate (Path.join dirPath file);;
       forEachFile dirPath rest)%M
  end.

(** [async extractFromDirectory(dirPath)]. *)
Definition extractFromDirectory (dirPath : str) : M unit :=
  (let* w := get_world in
   let htmlFiles := glob_sync (files w) (u "**/*.html") dirPath in
   console_log [u "Found " ++ decimal (N.of_nat (length htmlFiles))
                  ++ u " HTML files"];;
   forEachFile dirPath htmlFiles)%M.

(** The object [saveToJSON] builds from the session. *)
Definition output (s : session) : artifact :=
  {| artLocale := locale o;
     translations := extractedTexts s;
     meta := {| extractedAt := date_now;
                totalTexts := length (extractedTexts s);
                metaKeyPrefix := keyPrefix o |} |}.

(** [async saveToJSON(outputPath)]. *)
Definition saveToJSON (outPath : str) : M unit :=
  (mkdir (Path.dirname outPath);;
   let* s := get_session in
   writeFile outPath (json_stringify (output s));;
   console_log [[55357; 56510]%N ++ u " Saved "
                  ++ decimal (N.of_nat (length (extractedTexts s)))
                  ++ u " translations to " ++ outPath])%M.

(** [async function extractTexts(options)], run in a given world. *)
Definition extractTexts (w : world) : outcome unit * state :=
  (extractFromDirectory (srcPath o);; saveToJSON (outputPath o))%M
    {| sess := new_session; wld := w |}.
End Extractor.

(* ===================================================================== *)
(** ** Vocabulary of the properties *)
(* ===================================================================== *)

(** *** Key generator *)

(** One [generateKey] call of a session: the file whose component context
    was entered just before it (if any), its text and its optional path. *)
Record call : Type := Call {
  entered : option str;
  callText : str;
  callPath : option str;
}.

Definition enter (c : call) (s : session) : session :=
  match entered c with
  | Some filePath => setComponentContext filePath s
  | None => s
  end.

(** A run of [generateKey] calls: the keys returned, and the session at the
    end. *)
Fixpoint generateKeys (o : options) (calls : list call) (s : session)
    : list str * session :=
  match calls with
  | [] => ([], s)
  | c :: rest =>
      let r := generateKey o (callText c) (callPath c) (enter c s) in
      let rs := generateKeys o rest (snd r) in
      (fst r :: fst rs, snd rs)
  end.

(** A key whose counter suffix is [n]. *)
Definition hasCounter (n : N) (k : str) : Prop :=
  exists body, k = body ++ 95%N :: decimal n.

(** *** Text classifier *)

(** Shapes of a trimmed candidate.  A key-like token is a non-empty run of
    [a-zA-Z0-9_.] with at least one dot. *)
Definition keyChar (c : char) : bool := Ch.alnum c || Ch.oneof "_." c.

Definition KeyLike (t : str) : Prop :=
  t <> [] /\ forallb keyChar t = true /\ 46%N ∈ t.

(** [${...}] somewhere in the string. *)
Definition ContainsTemplate (t : str) : Prop :=
  exists a m b, t = a ++ u "${" ++ m ++ u "}" ++ b.

(** [{{...}}] somewhere in the string. *)
Definition ContainsInterpolation (t : str) : Prop :=
  exists a m b, t = a ++ u "{{" ++ m ++ u "}}" ++ b.

(** The whole string is one [{{...}}] on a single line. *)
Definition IsInterpolation (t : str) : Prop :=
  exists m, t = u "{{" ++ m ++ u "}}" /\ forallb Ch.dot m = true.

(** A context that does not mark a thrown-error argument. *)
Definition notThrown (ctx : option context) : Prop :=
  match ctx with
  | None => True
  | Some c => isThrow c = false
  end.

(** [w] occurs in [t]. *)
Definition Contains (w t : str) : Prop := exists a b, t = a ++ w ++ b.

(** The words that mark a technical message wherever they occur. *)
Definition technicalWords : list string :=
  ["undefined"; "null"; "NaN"; "TypeError"; "ReferenceError";
   "failed to"; "cannot"]%string.

(** An ALL_CAPS code: [A-Z_] followed by [A-Z0-9_] only. *)
Definition AllCaps (t : str) : Prop :=
  exists c r, t = c :: r
    /\ (Ch.upper c || Ch.oneof "_" c) = true
    /\ forallb (fun x => Ch.upper x || Ch.digit x || Ch.oneof "_" x) r = true.

(** A dotted reference: a word character, a dot, a word character. *)
Definition DottedReference (t : str) : Prop :=
  exists a x y b, t = a ++ [x; 46%N; y] ++ b
    /\ Ch.word x = true /\ Ch.word y = true.

(** A call: a word character followed by [()]. *)
Definition CallReference (t : str) : Prop :=
  exists a x b, t = a ++ [x; 40%N; 41%N] ++ b /\ Ch.word x = true.

(** The technical-error shapes of [isUserFacingErrorMessage]. *)
Definition Technical (t : str) : Prop :=
  (exists w, In w technicalWords /\ Contains (u w) t)
  \/ AllCaps t \/ DottedReference t \/ CallReference t.

(** Two lower-case letters with no line terminator between them. *)
Definition TwoLowercase (t : str) : Prop :=
  exists a x m y b, t = a ++ [x] ++ m ++ [y] ++ b
    /\ Ch.lower x = true /\ Ch.lower y = true /\ forallb Ch.dot m = true.

(** A path to a translation file: [assets/i18n/....json] on one line. *)
Definition I18nAsset (t : str) : Prop :=
  exists a m b, t = a ++ u "assets/i18n/" ++ m ++ u ".json" ++ b
    /\ forallb Ch.dot m = true.

(** What [isDisplayText] rejects before it looks at the context. *)
Definition EarlyRejected (t : str) : Prop :=
  KeyLike t \/ I18nAsset t \/ (Contains (u "${") t /\ Contains (u "}") t).

(** The context of a literal passed to [throw new Error(...)]. *)
Definition thrownContext : context :=
  {| isImport := false; isRequire := false; isDecorator := false;
     isComponentDecorator := false; isConsole := false; isThrow := true |}.

(** *** Markup extractor *)

(** An attribute value the second loop extracts: not excluded, and free of
    [{{], [}}], [[] and [(]. *)
Definition extractable (v : str) : bool :=
  negb (isExcluded v)
  && negb (includes (u "{{") v || includes (u "}}") v
           || includes (u "[") v || includes (u "(") v).

(** The values of the listed attributes present in a document, element by
    element in document order, attribute by attribute in list order. *)
Definition attributeValues (doc : list node) : list str :=
  flat_map (fun el => omap (fun attr => attr_get (u attr) (attrs (snd el)))
                           attributes)
           (elements doc).

(** One extraction: a fresh key for the value, recorded with the value. *)
Definition record (o : options) (s : session) (v : str) : session :=
  snd (extract o v v s).

(** States after a step: with another session, with one more console line,
    with a file stored. *)
Definition withSession (s : session) (st : state) : state :=
  {| sess := s; wld := wld st |}.

Definition warned (l : console_line) (st : state) : state :=
  {| sess := sess st;
     wld := {| files := files (wld st);
               readonly := readonly (wld st);
               console := console (wld st) ++ [l];
               written := written (wld st) |} |}.

Definition stored (p content : str) (st : state) : state :=
  {| sess := sess st;
     wld := {| files := <[p := content]> (files (wld st));
               readonly := readonly (wld st);
               console := console (wld st);
               written := written (wld st) ++ [p] |} |}.

(** The session after the two loops over a loaded document. *)
Definition scanned `{Platform} (o : options) (filePath content : str)
    (s : session) : session * list node :=
  let doc := cheerio_load content in
  attributePass o doc (passSession (contentPass o doc (setComponentContext filePath s))).

(** The markup written back when [replace] is set. *)
Definition rewritten `{Platform} (o : options) (filePath content : str)
    (s : session) : str :=
  let doc := cheerio_load content in
  let st := contentPass o doc (setComponentContext filePath s) in
  restoreDirectiveCase
    (unwrap (cheerio_html
               (fold_left applyModification (modifications st)
                          (snd (scanned o filePath content s))))).

(** The warning [extractFromHtmlTemplate] prints for an error. *)
Definition warning (filePath : str) (e : error) : console_line :=
  Warn [u "Warning: Could not process HTML template " ++ filePath ++ u ":";
        message e].

(** The file system of [st'] is that of [st]. *)
Definition sameFiles (st st' : state) : Prop :=
  files (wld st') = files (wld st)
  /\ readonly (wld st') = readonly (wld st)
  /\ written (wld st') = written (wld st).

(** *** Worked examples *)

Module Example.
(** A small platform for the examples: markup is parsed by table, nodes
    are written back tag by tag, file discovery lists the [.html] files
    below the directory, and the artifact is printed field by field. *)

(** The document cheerio builds around a fragment. *)
Definition wrap (body : list node) : list node :=
  [Elem (u "html") [] [Elem (u "head") [] []; Elem (u "body") [] body]].

Definition welcomeMarkup : str := u "<h1>Welcome to our app</h1>".
Definition emptyMarkup : str := u "<div></div>".

Definition parsed : list (str * list node) :=
  [ (welcomeMarkup, wrap [Elem (u "h1") [] [Text (u "Welcome to our app")]]);
    (emptyMarkup, wrap [Elem (u "div") [] []]) ].

Definition quoted (s : str) : str := [34%N] ++ s ++ [34%N].

Fixpoint render (n : node) : str :=
  match n with
  | Text data => data
  | Comment data => u "<!--" ++ data ++ u "-->"
  | Elem name a cs =>
      u "<" ++ name
        ++ flat_map (fun kv => u " " ++ fst kv ++ u "=" ++ quoted (snd kv)) a
        ++ u ">" ++ flat_map render cs ++ u "</" ++ name ++ u ">"
  end.

Definition listHtml (fs : gmap str str) (cwd : str) : list str :=
  omap (fun kv =>
          let p := fst kv in
          if startsWith (cwd ++ [Path.slash]) p && endsWith (u ".html") p
          then Some (drop (S (length cwd)) p) else None)
       (map_to_list fs).

Fixpoint commaSep (parts : list str) : str :=
  match parts with
  | [] => []
  | [x] => x
  | x :: rest => x ++ u ", " ++ commaSep rest
  end.

Definition field (name value : str) : str := quoted name ++ u ": " ++ value.

Definition printArtifact (a : artifact) : str :=
  u "{ "
    ++ commaSep
         [ field (u "locale") (quoted (artLocale a));
           field (u "translations")
             (u "{ " ++ commaSep (map (fun kv => field (fst kv) (quoted (snd kv)))
                                      (translations a)) ++ u " }");
           field (u "metadata")
             (u "{ " ++ commaSep
                         [ field (u "extractedAt") (quoted (extractedAt (meta a)));
                           field (u "totalTexts")
                             (decimal (N.of_nat (totalTexts (meta a))));
                           field (u "keyPrefix") (quoted (metaKeyPrefix (meta a))) ]
                ++ u " }") ]
    ++ u " }".

Definition platform : Platform :=
  {| cheerio_load := fun content =>
       match List.find (fun kv => str_eqb (fst kv) content) parsed with
       | Some kv => snd kv
       | None => wrap [Text content]
       end;
     cheerio_html := flat_map render;
     cheerio_fragment := fun markup => [Text markup];
     glob_sync := fun fs pattern cwd =>
       if str_eqb pattern (u "**/*.html") then listHtml fs cwd else [];
     date_now := u "2024-01-01T12:00:00.000Z";
     json_stringify := printArtifact |}.

(** The directory of the end-to-end scenario: one markup file and one
    component-logic file. *)
Definition scenarioFiles : gmap str str :=
  {[ u "/src/app.component.html" := welcomeMarkup;
     u "/src/app.component.ts" := u "title = 'Welcome to our app';" ]}.

Definition scenario : world :=
  {| files := scenarioFiles; readonly := ∅; console := []; written := [] |}.

Definition scenarioOptions (replaceFlag : bool) : options :=
  {| srcPath := u "/src"; outputPath := u "/i18n/en.json"; locale := u "en";
     keyPrefix := u "app"; replace := replaceFlag |}.
End Example.

(** The artifact the scenario produces. *)
Definition scenarioArtifact `{Platform} : artifact :=
  {| artLocale := u "en";
     translations :=
       [(u "app.app.welcome_to_our_app_1", u "Welcome to our app")];
     meta := {| extractedAt := date_now;
                totalTexts := 1;
                metaKeyPrefix := u "app" |} |}.

(** *** Further vocabulary *)

(** The characters [isExcluded] counts as no text: [0-9\s\-_.,;:!?()[\]{}]. *)
Definition punctChar (c : char) : bool :=
  Ch.digit c || Ch.space c || Ch.oneof "-_.,;:!?()[]{}" c.

(** The characters of a slug: [a-z0-9_]. *)
Definition slugChar (c : char) : bool := Ch.lower c || Ch.digit c || Ch.one 95 c.


(** The entries of a session are numbered: the [i]-th entry (from 0) has
    the key of counter [i + 1], and the counter is one more than their
    number. *)
Definition numbered (s : session) : Prop :=
  keyCounter s = (N.of_nat (length (extractedTexts s)) + 1)%N
  /\ forall i kv, extractedTexts s !! i = Some kv ->
       hasCounter (N.of_nat i + 1) (fst kv).

(** [s'] has the entries of [s], in order, followed by new ones. *)
Definition extends (s s' : session) : Prop :=
  numbered s' /\ extractedTexts s `prefix_of` extractedTexts s'.

(** The keys of the entries a session has beyond its first [n]. *)
Definition keysFrom (n : nat) (s : session) : list str :=
  map fst (drop n (extractedTexts s)).

(** The invariant of the first loop of [extractFromHtmlTemplate], started
    from a session [s0] with [n] entries: the entries only grow, and the
    modifications are those of the new entries when [replace] is set (none
    otherwise), each for an element marked as processed, no two for the
    same element. *)
Definition passInv (o : options) (n : nat) (s0 : session) (st : pass) : Prop :=
  extends s0 (passSession st)
  /\ n = length (extractedTexts s0)
  /\ map key (modifications st)
     = (if replace o then keysFrom n (passSession st) else [])
  /\ (forall m, m ∈ modifications st -> element m ∈ processedElements st)
  /\ NoDup (map element (modifications st)).

(** The options of a run that extracts without rewriting: [replace] off,
    the rest as given. *)
Definition dry (o : options) : options :=
  {| srcPath := srcPath o; outputPath := outputPath o; locale := locale o;
     keyPrefix := keyPrefix o; replace := false |}.



(** The scenario with its markup file protected against writing. *)
Definition protectedScenario : world :=
  {| files := Example.scenarioFiles;
     readonly := {[ u "/src/app.component.html" ]};
     console := [];
     written := [] |}.

(** A session that holds one entry already. *)
Definition oneEntry : session :=
  {| extractedTexts := [(u "app.home.hello_1", u "Hello")];
     keyCounter := 2;
     currentComponentContext := Some (u "home") |}.

(** A tag in the sense of [/<[^>]*>/]: a [<] with a [>] somewhere after
    it. *)
Fixpoint hasTag (s : str) : bool :=
  match s with
  | [] => false
  | c :: r => (N.eqb c 60 && includes (u ">") r) || hasTag r
  end.

(** A trimmed text the first loop takes from an element without child
    elements: not excluded, and not holding both [{{] and [}}]. *)
Definition plainText (t : str) : bool :=
  negb (isExcluded t) && negb (includes (u "{{") t && includes (u "}}") t).

(** The lower-case directive names [restoreDirectiveCase] looks for. *)
Definition loweredDirectives : list string :=
  ["*ngif="; "*ngfor="; "*ngswitch="; "[ngclass]="; "[ngstyle]=";
   "routerlink="; "[routerlink]="]%string.

(* ===================================================================== *)
(** * Properties *)
(* ===================================================================== *)

(** ** The matcher decides the language of a regular expression *)

Section RegexFacts.
Implicit Types (r : regex) (s : str) (c : char).

Lemma matches_Void s : matches Void s <-> False.
Proof. split; [inversion 1 | tauto]. Qed.

Lemma matches_Eps s : matches Eps s <-> s = [].
Proof. split; [inversion 1; reflexivity | intros ->; constructor]. Qed.

Lemma matches_Cls p s : matches (Cls p) s <-> exists c, s = [c] /\ p c = true.
Proof.
  split.
  - inversion 1; subst; eauto.
  - intros (c & -> & Hc). now constructor.
Qed.

Lemma matches_Cat r1 r2 s :
  matches (Cat r1 r2) s <->
  exists s1 s2, s = s1 ++ s2 /\ matches r1 s1 /\ matches r2 s2.
Proof.
  split.
  - inversion 1; subst; eauto.
  - intros (s1 & s2 & -> & H1 & H2). now constructor.
Qed.

Lemma matches_Alt r1 r2 s :
  matches (Alt r1 r2) s <-> matches r1 s \/ matches r2 s.
Proof.
  split.
  - inversion 1; subst; auto.
  - intros [H1 | H2]; [now apply MAltL | now apply MAltR].
Qed.

Lemma matches_Cat_Void_l r s : matches (Cat Void r) s <-> False.
Proof.
  rewrite matches_Cat. split; [| tauto].
  intros (s1 & s2 & _ & H1 & _). now apply matches_Void in H1.
Qed.

Lemma matches_Cat_Void_r r s : matches (Cat r Void) s <-> False.
Proof.
  rewrite matches_Cat. split; [| tauto].
  intros (s1 & s2 & _ & _ & H2). now apply matches_Void in H2.
Qed.

Lemma matches_Cat_Eps_l r s : matches (Cat Eps r) s <-> matches r s.
Proof.
  rewrite matches_Cat. split.
  - intros (s1 & s2 & -> & H1 & H2). apply matches_Eps in H1. now subst.
  - intros Hm. exists [], s. repeat split; [constructor | exact Hm].
Qed.

Lemma matches_cat r1 r2 s : matches (cat r1 r2) s <-> matches (Cat r1 r2) s.
Proof.
  destruct r1, r2; simpl;
    rewrite ?matches_Cat_Void_l, ?matches_Cat_Void_r, ?matches_Cat_Eps_l,
            ?matches_Void; tauto.
Qed.

Lemma matches_alt r1 r2 s : matches (alt r1 r2) s <-> matches (Alt r1 r2) s.
Proof.
  rewrite matches_Alt.
  destruct r1, r2; simpl; rewrite ?matches_Alt, ?matches_Void; tauto.
Qed.

Lemma nullable_spec r : nullable r = true <-> matches r [].
Proof.
  induction r; simpl.
  - rewrite matches_Void. split; [discriminate | tauto].
  - rewrite matches_Eps. tauto.
  - rewrite matches_Cls. split; [discriminate | intros (c & Hc & _); discriminate].
  - rewrite andb_true_iff, IHr1, IHr2, matches_Cat. split.
    + intros [H1 H2]. exists [], []. auto.
    + intros (s1 & s2 & Hs & H1 & H2).
      symmetry in Hs. apply app_eq_nil in Hs as [-> ->]. auto.
  - rewrite orb_true_iff, IHr1, IHr2, matches_Alt. tauto.
  - split; [intros _; constructor | reflexivity].
Qed.

(** A non-empty match of [r*] starts with a non-empty match of [r]. *)
Lemma matches_Star_cons r c s :
  matches (Star r) (c :: s) ->
  exists s1 s2, s = s1 ++ s2 /\ matches r (c :: s1) /\ matches (Star r) s2.
Proof.
  intros Hm. remember (Star r) as r' eqn:Er. remember (c :: s) as t eqn:Et.
  revert s Et. induction Hm; intros s' Et; try discriminate.
  injection Er as ->.
  destruct s1 as [| c1 s1].
  - simpl in Et. now apply IHHm2.
  - simpl in Et. injection Et as -> <-. eauto.
Qed.

Lemma deriv_spec r : forall c s, matches (deriv c r) s <-> matches r (c :: s).
Proof.
  induction r; intros c s; simpl.
  - rewrite !matches_Void. tauto.
  - rewrite matches_Void, matches_Eps. split; [tauto | discriminate].
  - rewrite matches_Cls. destruct (p c) eqn:Hp.
    + rewrite matches_Eps. split.
      * intros ->. eauto.
      * intros (c' & Hc & _). now injection Hc.
    + rewrite matches_Void. split; [tauto |].
      intros (c' & Hc & Hp'). injection Hc as <-. congruence.
  - rewrite matches_alt, matches_Alt, matches_cat, !matches_Cat. split.
    + intros [(s1 & s2 & -> & H1 & H2) | Hn].
      * exists (c :: s1), s2. rewrite <- IHr1. auto.
      * destruct (nullable r1) eqn:Hnull; [| now apply matches_Void in Hn].
        exists [], (c :: s). rewrite <- IHr2, <- nullable_spec. auto.
    + intros (s1 & s2 & Hs & H1 & H2). destruct s1 as [| c1 s1].
      * simpl in Hs. subst s2. right.
        apply nullable_spec in H1. rewrite H1. now apply IHr2.
      * simpl in Hs. injection Hs as <- ->. left.
        exists s1, s2. rewrite IHr1. auto.
  - rewrite matches_alt, !matches_Alt, IHr1, IHr2. tauto.
  - rewrite matches_cat, matches_Cat. split.
    + intros (s1 & s2 & -> & H1 & H2).
      apply IHr in H1. apply (MStarS r (c :: s1) s2 H1 H2).
    + intros (s1 & s2 & -> & H1 & H2)%matches_Star_cons.
      exists s1, s2. rewrite IHr. auto.
Qed.

Lemma matchb_spec r s : matchb r s = true <-> matches r s.
Proof.
  revert r. induction s as [| c s IH]; intros r; simpl.
  - apply nullable_spec.
  - rewrite IH. apply deriv_spec.
Qed.

Lemma matchb_false r s : matchb r s = false <-> ~ matches r s.
Proof.
  rewrite <- matchb_spec. destruct (matchb r s); split; congruence.
Qed.
End RegexFacts.

(** ** String primitives *)

Section StringFacts.
Implicit Types (s t : str) (c : char).

Lemma startsWith_spec p s : startsWith p s = true <-> exists b, s = p ++ b.
Proof.
  revert s. induction p as [| a p IH]; intros s; simpl.
  - split; eauto.
  - destruct s as [| c s].
    + split; [discriminate | intros (b & Hb); discriminate].
    + rewrite andb_true_iff, N.eqb_eq, IH. split.
      * intros (-> & b & ->). eauto.
      * intros (b & Hb). injection Hb as -> ->. eauto.
Qed.

Lemma includes_spec p s : includes p s = true <-> exists a b, s = a ++ p ++ b.
Proof.
  induction s as [| c s IH].
  - simpl. rewrite orb_false_r, startsWith_spec. split.
    + intros (b & Hb). exists [], b. exact Hb.
    + intros (a & b & Hab). destruct a; [eauto |]. discriminate.
  - cbn [includes]. rewrite orb_true_iff, IH, startsWith_spec. split.
    + intros [(b & ->) | (a & b & ->)]; [exists [], b | exists (c :: a), b]; reflexivity.
    + intros (a & b & Hab). destruct a as [| c' a].
      * left. eauto.
      * right. injection Hab as _ ->. eauto.
Qed.

Lemma includes_one c s : includes [c] s = true <-> c ∈ s.
Proof.
  rewrite includes_spec. split.
  - intros (a & b & ->). set_solver.
  - intros (a & b & ->)%list_elem_of_split. exists a, b. reflexivity.
Qed.

Lemma matches_Any s : matches Any s.
Proof.
  induction s as [| c s IH]; [constructor |].
  apply (MStarS _ [c] s); [now constructor | exact IH].
Qed.

Lemma matches_Lit w s : matches (Lit w) s <-> s = w.
Proof.
  revert s. induction w as [| c w IH]; intros s; simpl.
  - apply matches_Eps.
  - rewrite matches_Cat. split.
    + intros (s1 & s2 & -> & (c' & -> & Hc)%matches_Cls & H2%IH).
      apply N.eqb_eq in Hc. now subst.
    + intros ->. exists [c], w. repeat split.
      * constructor. apply N.eqb_refl.
      * now apply IH.
Qed.

Lemma matches_Star_Cls p s : matches (Star (Cls p)) s <-> forallb p s = true.
Proof.
  induction s as [| c s IH]; simpl.
  - split; [reflexivity | constructor].
  - rewrite andb_true_iff, <- IH. split.
    + intros (s1 & s2 & -> & (c' & Hc & Hp)%matches_Cls & H2)%matches_Star_cons.
      injection Hc as <- ->. auto.
    + intros [Hp Hs]. apply (MStarS _ [c] s); [now constructor | exact Hs].
Qed.

Lemma matches_Plus_Cls p s :
  matches (Plus (Cls p)) s <-> s <> [] /\ forallb p s = true.
Proof.
  unfold Plus. rewrite matches_Cat. split.
  - intros (s1 & s2 & -> & (c & -> & Hc)%matches_Cls & H2%matches_Star_Cls).
    split; [discriminate | simpl; now rewrite Hc].
  - intros [Hne Hall]. destruct s as [| c s]; [congruence |].
    simpl in Hall. apply andb_true_iff in Hall as [Hc Hs].
    exists [c], s. rewrite matches_Cls, matches_Star_Cls. eauto.
Qed.

Lemma matches_Opt r s : matches (Opt r) s <-> matches r s \/ s = [].
Proof. unfold Opt. now rewrite matches_Alt, matches_Eps. Qed.

Lemma matches_Seq_nil s : matches (Seq []) s <-> s = [].
Proof. apply matches_Eps. Qed.

Lemma matches_Seq_cons r rs s :
  matches (Seq (r :: rs)) s <->
  exists s1 s2, s = s1 ++ s2 /\ matches r s1 /\ matches (Seq rs) s2.
Proof. apply matches_Cat. Qed.

Lemma matches_words ws s : matches (words ws) s <-> exists w, In w ws /\ s = u w.
Proof.
  unfold words. induction ws as [| w ws IH]; simpl.
  - rewrite matches_Void. split; [tauto | intros (w & [] & _)].
  - rewrite matches_Alt, IH. unfold L. rewrite matches_Lit. split.
    + intros [-> | (w' & Hin & ->)]; eauto.
    + intros (w' & [<- | Hin] & ->); eauto.
Qed.

(** What [test] means for each placement of the anchors. *)
Lemma test_full r s : test (full r) s = true <-> matches r s.
Proof.
  unfold test, compile, full. simpl. rewrite matchb_spec, matches_Cat_Eps_l.
  rewrite matches_Cat. split.
  - intros (s1 & s2 & -> & H1 & ->%matches_Eps). now rewrite app_nil_r.
  - intros Hm. exists s, []. rewrite app_nil_r. repeat split; [exact Hm | constructor].
Qed.

Lemma test_pre r s :
  test (pre r) s = true <-> exists m b, s = m ++ b /\ matches r m.
Proof.
  unfold test, compile, pre. simpl. rewrite matchb_spec, matches_Cat_Eps_l.
  rewrite matches_Cat. split.
  - intros (m & b & -> & Hm & _). eauto.
  - intros (m & b & -> & Hm). exists m, b. auto using matches_Any.
Qed.

Lemma test_suf r s :
  test (suf r) s = true <-> exists a m, s = a ++ m /\ matches r m.
Proof.
  unfold test, compile, suf. simpl. rewrite matchb_spec, matches_Cat. split.
  - intros (a & m' & -> & _ & (m & e & -> & Hm & ->%matches_Eps)%matches_Cat).
    rewrite app_nil_r. eauto.
  - intros (a & m & -> & Hm). exists a, m. repeat split; [apply matches_Any |].
    apply matches_Cat. exists m, []. rewrite app_nil_r.
    repeat split; [exact Hm | constructor].
Qed.

Lemma test_anywhere r s :
  test (anywhere r) s = true <-> exists a m b, s = a ++ m ++ b /\ matches r m.
Proof.
  unfold test, compile, anywhere. simpl. rewrite matchb_spec, matches_Cat. split.
  - intros (a & m' & -> & _ & (m & b & -> & Hm & _)%matches_Cat). eauto.
  - intros (a & m & b & -> & Hm). exists a, (m ++ b).
    repeat split; [apply matches_Any |].
    apply matches_Cat. exists m, b. auto using matches_Any.
Qed.

Lemma test_anywhere_Lit w s :
  test (anywhere (Lit w)) s = true <-> includes w s = true.
Proof.
  rewrite test_anywhere, includes_spec. split.
  - intros (a & m & b & -> & ->%matches_Lit). eauto.
  - intros (a & b & ->). exists a, w, b. now rewrite matches_Lit.
Qed.
End StringFacts.

(** ** Key generator *)

Section KeyFacts.
Variable o : options.

Lemma uint_chars_digits d : forallb Ch.digit (uint_chars d) = true.
Proof. induction d; simpl; auto. Qed.

Lemma uint_chars_inj d1 : forall d2, uint_chars d1 = uint_chars d2 -> d1 = d2.
Proof.
  induction d1; intros d2 E; destruct d2; simpl in E; try discriminate;
    try reflexivity; injection E as E; f_equal; auto.
Qed.

Lemma decimal_inj n m : decimal n = decimal m -> n = m.
Proof.
  unfold decimal. intros E%uint_chars_inj.
  rewrite <- (DecimalN.Unsigned.of_to n), <- (DecimalN.Unsigned.of_to m).
  now rewrite E.
Qed.

Lemma decimal_no_underscore n : 95%N ∉ decimal n.
Proof.
  unfold decimal. intros Hin.
  pose proof (uint_chars_digits (N.to_uint n)) as Hd.
  rewrite forallb_forall in Hd.
  apply list_elem_of_In in Hin. apply Hd in Hin. discriminate.
Qed.

(** The counter is the text after the last underscore of a key. *)
Lemma counter_suffix_unique (x y dn dm : str) :
  95%N ∉ dn -> 95%N ∉ dm -> x ++ 95%N :: dn = y ++ 95%N :: dm -> dn = dm.
Proof.
  revert y. induction x as [| c x IH]; intros y Hn Hm E.
  - destruct y as [| c y]; simpl in E.
    + now injection E.
    + injection E as _ ->. exfalso. apply Hn. set_solver.
  - destruct y as [| c' y]; simpl in E.
    + injection E as _ <-. exfalso. apply Hm. set_solver.
    + injection E as _ E. eauto.
Qed.

Lemma hasCounter_inj n m k : hasCounter n k -> hasCounter m k -> n = m.
Proof.
  intros (x & ->) (y & E). apply decimal_inj.
  eapply counter_suffix_unique; eauto using decimal_no_underscore.
Qed.

Lemma generateKey_counter text filePath s :
  hasCounter (keyCounter s) (fst (generateKey o text filePath s))
  /\ keyCounter (snd (generateKey o text filePath s)) = (keyCounter s + 1)%N.
Proof.
  split; [| reflexivity]. unfold generateKey, hasCounter. cbn [fst].
  set (cc := match truthy filePath with Some f => _ | None => _ end).
  exists (keyPrefix o ++ [46%N] ++ contextPart cc ++ cleanText text).
  rewrite <- !app_assoc. reflexivity.
Qed.

Lemma enter_counter c s : keyCounter (enter c s) = keyCounter s.
Proof. unfold enter. destruct (entered c); reflexivity. Qed.

Lemma generateKey_entered c s :
  hasCounter (keyCounter s)
    (fst (generateKey o (callText c) (callPath c) (enter c s)))
  /\ keyCounter (snd (generateKey o (callText c) (callPath c) (enter c s)))
     = (keyCounter s + 1)%N.
Proof.
  destruct (generateKey_counter (callText c) (callPath c) (enter c s)) as [Hc Hn].
  rewrite enter_counter in Hc, Hn. auto.
Qed.

Lemma generateKeys_counters calls : forall s k,
  k ∈ fst (generateKeys o calls s) ->
  exists n, (keyCounter s <= n)%N /\ hasCounter n k.
Proof.
  induction calls as [| c rest IH]; intros s k Hin;
    cbn [generateKeys fst snd] in Hin.
  - set_solver.
  - destruct (generateKey_entered c s) as [Hc Hn].
    apply elem_of_cons in Hin as [-> | Hin].
    + exists (keyCounter s). split; [lia | exact Hc].
    + destruct (IH _ _ Hin) as (n & Hle & Hk).
      exists n. split; [lia | exact Hk].
Qed.

Lemma generateKeys_counter calls : forall s,
  keyCounter (snd (generateKeys o calls s))
  = (keyCounter s + N.of_nat (length calls))%N.
Proof.
  induction calls as [| c rest IH]; intros s;
    cbn [generateKeys fst snd length].
  - lia.
  - rewrite IH. destruct (generateKey_entered c s) as [_ ->]. lia.
Qed.

Lemma generateKeys_nth calls : forall s i k,
  fst (generateKeys o calls s) !! i = Some k ->
  hasCounter (keyCounter s + N.of_nat i) k.
Proof.
  induction calls as [| c rest IH]; intros s i k Hi;
    cbn [generateKeys fst snd] in Hi.
  - discriminate.
  - destruct (generateKey_entered c s) as [Hc Hn].
    destruct i as [| i]; cbn [lookup list_lookup] in Hi.
    + injection Hi as <-. now rewrite N.add_0_r.
    + apply IH in Hi. rewrite Hn in Hi.
      replace (keyCounter s + N.of_nat (S i))%N
        with (keyCounter s + 1 + N.of_nat i)%N by lia.
      exact Hi.
Qed.

(** C2. Key uniqueness: within one session, the keys returned by any
    finite sequence of [generateKey] calls (any texts, identical ones
    included, any paths, and any changes of the component context between
    the calls) are pairwise distinct: the key of the [i]-th call ends in
    the counter value of that call, every call post-increments the counter,
    and no value comes back. *)
Theorem generateKey_unique (calls : list call) (s : session) :
  NoDup (fst (generateKeys o calls s))
  /\ (forall i k, fst (generateKeys o calls s) !! i = Some k ->
      hasCounter (keyCounter s + N.of_nat i) k)
  /\ keyCounter (snd (generateKeys o calls s))
     = (keyCounter s + N.of_nat (length calls))%N.
Proof.
  split; [| split; [apply generateKeys_nth | apply generateKeys_counter]].
  revert s. induction calls as [| c rest IH]; intros s;
    cbn [generateKeys fst snd].
  - constructor.
  - constructor; [| apply IH].
    intros Hin. destruct (generateKeys_counters _ _ _ Hin) as (n & Hle & Hk).
    destruct (generateKey_entered c s) as [Hc Hn]. rewrite Hn in Hle.
    pose proof (hasCounter_inj _ _ _ Hc Hk). lia.
Qed.
End KeyFacts.

(** The example of the specification: two calls with the text [Save]. *)
Example generateKey_save_twice :
  fst (generateKeys (Options [] [] [] (u "app") false)
         [Call None (u "Save") None; Call None (u "Save") None] new_session)
  = [u "app.save_1"; u "app.save_2"].
Proof. vm_compute. reflexivity. Qed.

(** ** Text classifier *)

(** C8. The rejection and acceptance sets of the specification, with no
    context argument: the URL, the identifier, the colour, the HTTP method
    and the version string are rejected; the two phrases are accepted. *)
Theorem isDisplayText_examples :
  isDisplayText (u "https://api.example.com") None = false
  /\ isDisplayText (u "userId") None = false
  /\ isDisplayText (u "#ffffff") None = false
  /\ isDisplayText (u "GET") None = false
  /\ isDisplayText (u "1.2.3") None = false
  /\ isDisplayText (u "Welcome to our application") None = true
  /\ isDisplayText (u "Click here to continue") None = true.
Proof. repeat split; vm_compute; reflexivity. Qed.

Section ClassifierFacts.
Implicit Types (s t : str) (c : context).

Lemma matches_Plus_digit (ds : str) :
  ds <> [] -> forallb Ch.digit ds = true -> matches (Plus d) ds.
Proof. intros Hne Hd. apply matches_Plus_Cls. auto. Qed.

(** The version pattern [/^\d+\.\d+(\.\d+)?/] only looks at a prefix. *)
Lemma version_pattern_prefix (ds1 ds2 rest : str) :
  ds1 <> [] -> ds2 <> [] ->
  forallb Ch.digit ds1 = true -> forallb Ch.digit ds2 = true ->
  test (pre (Seq [Plus d; L "."; Plus d; Opt (Seq [L "."; Plus d])]))
       (ds1 ++ [46%N] ++ ds2 ++ rest) = true.
Proof.
  intros Hn1 Hn2 Hd1 Hd2. apply test_pre.
  exists (ds1 ++ [46%N] ++ ds2 ++ []), rest. split.
  - rewrite <- !app_assoc. reflexivity.
  - apply matches_Seq_cons. exists ds1, ([46%N] ++ ds2 ++ []).
    repeat split; [now apply matches_Plus_digit |].
    apply matches_Seq_cons. exists [46%N], (ds2 ++ []).
    repeat split; [now apply matches_Lit |].
    apply matches_Seq_cons. exists ds2, [].
    repeat split; [now apply matches_Plus_digit |].
    apply matches_Seq_cons. exists [], [].
    repeat split; [apply matches_Opt; now right | now apply matches_Seq_nil].
Qed.

Lemma passesPatterns_code t (p : pattern) :
  In p codePatterns -> test p t = true -> passesPatterns t = false.
Proof.
  intros Hin Ht. unfold passesPatterns.
  assert (existsb (fun p => test p t) codePatterns = true) as ->; [| reflexivity].
  apply existsb_exists. eauto.
Qed.

Lemma isDisplayText_None_patterns s :
  passesPatterns (trim s) = false -> isDisplayText s None = false.
Proof.
  intros Hp. unfold isDisplayText.
  destruct (looksLikeKey _); [reflexivity |].
  destruct (looksLikeTemplate _); [reflexivity |].
  destruct (hasInterpolation _); [reflexivity |]. exact Hp.
Qed.
End ClassifierFacts.

(** C10. A string whose trimmed form begins with two runs of digits
    separated by a dot is rejected when no context is given, whatever
    follows the digits: the version-number pattern is anchored at the start
    of the string only. *)
Theorem version_prefix_rejected (s ds1 ds2 rest : str) :
  ds1 <> [] -> ds2 <> [] ->
  forallb Ch.digit ds1 = true -> forallb Ch.digit ds2 = true ->
  trim s = ds1 ++ [46%N] ++ ds2 ++ rest ->
  isDisplayText s None = false.
Proof.
  intros Hn1 Hn2 Hd1 Hd2 Ht. apply isDisplayText_None_patterns. rewrite Ht.
  eapply passesPatterns_code; [| now apply version_pattern_prefix].
  unfold codePatterns. do 30 right. left. reflexivity.
Qed.

(** The example of the claim; its remainder alone is accepted. *)
Lemma version_prefix_rejected_witness :
  isDisplayText (u "2.5 million users trust us") None = false
  /\ isDisplayText (u "million users trust us") None = true.
Proof.
  split.
  - apply (version_prefix_rejected _ [50%N] [53%N] (u " million users trust us"));
      [discriminate | discriminate | reflexivity | reflexivity
      | vm_compute; reflexivity].
  - vm_compute. reflexivity.
Defined.

(** *** Keys and interpolation markers *)

Section MarkerFacts.
Implicit Types (s t : str).

Lemma looksLikeKey_KeyLike t : KeyLike t -> looksLikeKey t = true.
Proof.
  intros (Hne & Hall & Hdot). unfold looksLikeKey.
  apply andb_true_iff. split.
  - apply test_full. apply matches_Plus_Cls. auto.
  - now apply includes_one.
Qed.

Lemma hasInterpolation_template t : ContainsTemplate t -> hasInterpolation t = true.
Proof.
  intros (a & m & b & ->). unfold hasInterpolation.
  apply andb_true_iff. split; apply includes_spec.
  - exists a, (m ++ u "}" ++ b). reflexivity.
  - exists (a ++ u "${" ++ m), b. rewrite <- !app_assoc. reflexivity.
Qed.

Lemma interpolation_pattern t :
  IsInterpolation t -> test (full (Seq [L "{{"; Star dot; L "}}"])) t = true.
Proof.
  intros (m & -> & Hm). apply test_full.
  apply matches_Seq_cons. exists (u "{{"), (m ++ u "}}").
  repeat split; [now apply matches_Lit |].
  apply matches_Seq_cons. exists m, (u "}}" ++ []).
  repeat split; [now apply matches_Star_Cls |].
  apply matches_Seq_cons. exists (u "}}"), [].
  repeat split; [now apply matches_Lit | now apply matches_Seq_nil].
Qed.

Lemma isDisplayText_early s ctx :
  looksLikeKey (trim s) = true \/ hasInterpolation (trim s) = true ->
  isDisplayText s ctx = false.
Proof.
  unfold isDisplayText. intros [-> | Hi]; [reflexivity |].
  destruct (looksLikeKey _); [reflexivity |].
  destruct (looksLikeTemplate _); [reflexivity |].
  now rewrite Hi.
Qed.

Lemma isDisplayText_notThrown_patterns s ctx :
  notThrown ctx -> passesPatterns (trim s) = false -> isDisplayText s ctx = false.
Proof.
  intros Hctx Hp. destruct ctx as [c |]; [| now apply isDisplayText_None_patterns].
  simpl in Hctx. unfold isDisplayText.
  destruct (looksLikeKey _); [reflexivity |].
  destruct (looksLikeTemplate _); [reflexivity |].
  destruct (hasInterpolation _); [reflexivity |].
  destruct (isImport c || isRequire c); [reflexivity |].
  destruct (isDecorator c || isComponentDecorator c); [reflexivity |].
  destruct (isConsole c); [reflexivity |].
  rewrite Hctx. exact Hp.
Qed.
End MarkerFacts.

(** C6, as the code has it.  Whatever the context, a candidate is rejected
    when its trimmed form is key-like or contains [${] followed by [}]; a
    double-brace interpolation is rejected when it is the whole trimmed
    candidate, and the context (if any) does not mark a thrown error. *)
Theorem markers_rejected (s : str) (ctx : option context) :
  KeyLike (trim s)
  \/ ContainsTemplate (trim s)
  \/ (IsInterpolation (trim s) /\ notThrown ctx) ->
  isDisplayText s ctx = false.
Proof.
  intros [Hk | [Ht | [Hi Hctx]]].
  - apply isDisplayText_early. left. now apply looksLikeKey_KeyLike.
  - apply isDisplayText_early. right. now apply hasInterpolation_template.
  - apply isDisplayText_notThrown_patterns; [exact Hctx |].
    eapply passesPatterns_code; [| now apply interpolation_pattern].
    unfold codePatterns. do 18 right. left. reflexivity.
Qed.

Lemma markers_rejected_witness :
  isDisplayText (u "app.header.save_1") None = false
  /\ isDisplayText (u "Hello ${name}, welcome") None = false
  /\ isDisplayText (u "{{ title }}") None = false.
Proof.
  split; [| split].
  - apply markers_rejected. left.
    split; [discriminate | split; [vm_compute; reflexivity |]].
    apply includes_one. vm_compute. reflexivity.
  - apply markers_rejected. right. left.
    exists (u "Hello "), (u "name"), (u ", welcome"). vm_compute. reflexivity.
  - apply markers_rejected. right. right. split; [| exact I].
    exists (u " title "). split; vm_compute; reflexivity.
Defined.

(** C6 as stated fails: an interpolation inside a longer text is accepted. *)
Lemma interpolation_inside_accepted :
  ContainsInterpolation (trim (u "Hello {{name}}"))
  /\ isDisplayText (u "Hello {{name}}") None = true.
Proof.
  split.
  - exists (u "Hello "), (u "name"), []. vm_compute. reflexivity.
  - vm_compute. reflexivity.
Qed.

(** *** Thrown-error arguments *)

Section ThrowFacts.
Implicit Types (s t m : str).

Lemma Contains_includes w t : includes w t = true <-> Contains w t.
Proof. apply includes_spec. Qed.

Lemma test_anywhere_L w t : test (anywhere (L w)) t = true <-> Contains (u w) t.
Proof. unfold L. now rewrite test_anywhere_Lit, Contains_includes. Qed.

Lemma matches_Plus_w m : matches (Plus w) m <-> m <> [] /\ forallb Ch.word m = true.
Proof. apply matches_Plus_Cls. Qed.

Lemma word_run_last m :
  m <> [] -> forallb Ch.word m = true ->
  exists m' x, m = m' ++ [x] /\ Ch.word x = true.
Proof.
  intros Hne Hall. destruct (exists_last Hne) as (m' & x & ->).
  rewrite forallb_app in Hall. apply andb_true_iff in Hall as [_ Hx].
  simpl in Hx. rewrite andb_true_r in Hx. eauto.
Qed.

Lemma word_run_first m :
  m <> [] -> forallb Ch.word m = true ->
  exists x m', m = x :: m' /\ Ch.word x = true.
Proof.
  intros Hne Hall. destruct m as [| x m']; [congruence |].
  simpl in Hall. apply andb_true_iff in Hall as [Hx _]. eauto.
Qed.

Lemma matches_word_one x : Ch.word x = true -> matches (Plus w) [x].
Proof. intros Hx. apply matches_Plus_w. simpl. rewrite Hx. split; [discriminate | reflexivity]. Qed.

(** [\w+\.\w+] *)
Lemma matches_dotted m :
  matches (Seq [Plus w; L "."; Plus w]) m -> DottedReference m.
Proof.
  intros (m1 & r1 & -> & H1%matches_Plus_w
          & (d1 & r2 & -> & ->%matches_Lit
             & (m2 & e & -> & H2%matches_Plus_w & ->%matches_Seq_nil)
               %matches_Seq_cons)%matches_Seq_cons)%matches_Seq_cons.
  destruct H1 as [Hn1 Ha1], H2 as [Hn2 Ha2].
  destruct (word_run_last _ Hn1 Ha1) as (m1' & x & -> & Hx).
  destruct (word_run_first _ Hn2 Ha2) as (y & m2' & -> & Hy).
  exists m1', x, y, m2'. split; [| auto].
  rewrite <- !app_assoc. simpl. now rewrite app_nil_r.
Qed.

(** [\w+\(\)] *)
Lemma matches_call m : matches (Seq [Plus w; L "()"]) m -> CallReference m.
Proof.
  intros (m1 & r1 & -> & [Hn1 Ha1]%matches_Plus_w
          & (d1 & e & -> & ->%matches_Lit & ->%matches_Seq_nil)
            %matches_Seq_cons)%matches_Seq_cons.
  destruct (word_run_last _ Hn1 Ha1) as (m1' & x & -> & Hx).
  exists m1', x, []. split; [| auto].
  rewrite <- !app_assoc. reflexivity.
Qed.

Lemma DottedReference_within a m b : DottedReference m -> DottedReference (a ++ m ++ b).
Proof.
  intros (a' & x & y & b' & -> & Hx & Hy). exists (a ++ a'), x, y, (b' ++ b).
  split; [| auto]. rewrite <- !app_assoc. reflexivity.
Qed.

Lemma CallReference_within a m b : CallReference m -> CallReference (a ++ m ++ b).
Proof.
  intros (a' & x & b' & -> & Hx). exists (a ++ a'), x, (b' ++ b).
  split; [| auto]. rewrite <- !app_assoc. reflexivity.
Qed.

Lemma Contains_within w a m b : Contains w m -> Contains w (a ++ m ++ b).
Proof.
  intros (a' & b' & ->). exists (a ++ a'), (b' ++ b).
  rewrite <- !app_assoc. reflexivity.
Qed.

(** /undefined|null|NaN|TypeError|ReferenceError/ *)
Lemma technical1_spec t :
  test (anywhere (words ["undefined"; "null"; "NaN"; "TypeError";
                         "ReferenceError"]%string)) t = true <->
  exists w0, In w0 ["undefined"; "null"; "NaN"; "TypeError";
                    "ReferenceError"]%string /\ Contains (u w0) t.
Proof.
  rewrite test_anywhere. split.
  - intros (a & m & b & -> & (w0 & Hin & ->)%matches_words).
    exists w0. split; [exact Hin |]. now exists a, b.
  - intros (w0 & Hin & (a & b & ->)). exists a, (u w0), b.
    split; [reflexivity |]. apply matches_words. eauto.
Qed.

(** /failed to|cannot|unable to.*\w+\(\)/ *)
Lemma technical2_sound t :
  test (anywhere (Alts [L "failed to"; L "cannot";
                        Seq [L "unable to"; Star dot; Plus w; L "()"]])) t = true ->
  Contains (u "failed to") t \/ Contains (u "cannot") t \/ CallReference t.
Proof.
  intros (a & m & b & -> & Hm)%test_anywhere. cbn [Alts] in Hm.
  apply matches_Alt in Hm as [Hm | Hm]; [left |].
  { apply matches_Lit in Hm as ->. now exists a, b. }
  apply matches_Alt in Hm as [Hm | Hm]; [right; left |].
  { apply matches_Lit in Hm as ->. now exists a, b. }
  apply matches_Alt in Hm as [Hm | Hm]; [| now apply matches_Void in Hm].
  right. right.
  apply matches_Seq_cons in Hm as (p1 & r1 & -> & _ & Hm).
  apply matches_Seq_cons in Hm as (p2 & r2 & -> & _ & Hm).
  apply matches_call in Hm.
  rewrite !app_assoc. rewrite <- (app_assoc a). rewrite <- app_assoc.
  now apply CallReference_within.
Qed.

Lemma technical2_words t (w0 : string) :
  In w0 ["failed to"; "cannot"]%string -> Contains (u w0) t ->
  test (anywhere (Alts [L "failed to"; L "cannot";
                        Seq [L "unable to"; Star dot; Plus w; L "()"]])) t = true.
Proof.
  intros Hin (a & b & ->). apply test_anywhere. exists a, (u w0), b.
  split; [reflexivity |]. cbn [Alts].
  destruct Hin as [<- | [<- | []]].
  - apply MAltL. now apply matches_Lit.
  - apply MAltR, MAltL. now apply matches_Lit.
Qed.

(** /^[A-Z_][A-Z0-9_]*$/ *)
Lemma reConstant_spec t : test reConstant t = true <-> AllCaps t.
Proof.
  unfold reConstant. rewrite test_full, matches_Cat. split.
  - intros (s1 & s2 & -> & (c & -> & Hc)%matches_Cls & H2%matches_Star_Cls).
    exists c, s2. auto.
  - intros (c & r & -> & Hc & Hr). exists [c], r.
    split; [reflexivity |]. split; [now constructor | now apply matches_Star_Cls].
Qed.

(** /\w+\.\w+|\w+\(\)/ *)
Lemma technical4_spec t :
  test (anywhere (Alts [Seq [Plus w; L "."; Plus w]; Seq [Plus w; L "()"]])) t = true
  <-> DottedReference t \/ CallReference t.
Proof.
  rewrite test_anywhere. split.
  - intros (a & m & b & -> & Hm). cbn [Alts] in Hm.
    apply matches_Alt in Hm as [Hm | Hm].
    { left. now apply DottedReference_within, matches_dotted. }
    apply matches_Alt in Hm as [Hm | Hm]; [| now apply matches_Void in Hm].
    right. now apply CallReference_within, matches_call.
  - intros [(a & x & y & b & -> & Hx & Hy) | (a & x & b & -> & Hx)].
    + exists a, [x; 46%N; y], b. split; [reflexivity |]. apply MAltL.
      apply matches_Seq_cons. exists [x], [46%N; y].
      repeat split; [now apply matches_word_one |].
      apply matches_Seq_cons. exists [46%N], [y].
      repeat split; [now apply matches_Lit |].
      apply matches_Seq_cons. exists [y], [].
      repeat split; [now apply matches_word_one | now apply matches_Seq_nil].
    + exists a, [x; 40%N; 41%N], b. split; [reflexivity |]. apply MAltR, MAltL.
      apply matches_Seq_cons. exists [x], [40%N; 41%N].
      repeat split; [now apply matches_word_one |].
      apply matches_Seq_cons. exists [40%N; 41%N], [].
      repeat split; [now apply matches_Lit | now apply matches_Seq_nil].
Qed.

Lemma technicalPatterns_spec t :
  existsb (fun p => test p t) technicalPatterns = true <-> Technical t.
Proof.
  unfold technicalPatterns, Technical. cbn [existsb].
  rewrite !orb_true_iff, technical1_spec, reConstant_spec, technical4_spec.
  split.
  - intros [(w0 & Hin & Hc) | [H2 | [H3 | [H4 | Hf]]]].
    + left. exists w0. split; [| exact Hc]. unfold technicalWords.
      simpl in *. tauto.
    + apply technical2_sound in H2 as [Hc | [Hc | Hc]].
      * left. exists "failed to"%string. split; [simpl; tauto | exact Hc].
      * left. exists "cannot"%string. split; [simpl; tauto | exact Hc].
      * tauto.
    + tauto.
    + tauto.
    + discriminate.
  - intros [(w0 & Hin & Hc) | [H3 | H4]].
    + unfold technicalWords in Hin. simpl in Hin.
      destruct Hin as [<- | [<- | [<- | [<- | [<- | Hin]]]]];
        try (left; eexists; split; [| exact Hc]; simpl; tauto).
      right. left. eapply technical2_words; [| exact Hc]. simpl. tauto.
    + tauto.
    + tauto.
Qed.

(** /[a-z].*[a-z]/ *)
Lemma reTwoLower_spec t : test reTwoLower t = true <-> TwoLowercase t.
Proof.
  unfold reTwoLower. rewrite test_anywhere. split.
  - intros (a & m & b & -> & Hm).
    apply matches_Seq_cons in Hm as (p1 & r1 & -> & (x & -> & Hx)%matches_Cls & Hm).
    apply matches_Seq_cons in Hm as (p2 & r2 & -> & Hd%matches_Star_Cls & Hm).
    apply matches_Seq_cons in Hm
      as (p3 & r3 & -> & (y & -> & Hy)%matches_Cls & ->%matches_Seq_nil).
    exists a, x, p2, y, b. split; [| auto].
    rewrite <- !app_assoc. reflexivity.
  - intros (a & x & m & y & b & -> & Hx & Hy & Hm).
    exists a, ([x] ++ m ++ [y]), b. split.
    { rewrite <- !app_assoc. reflexivity. }
    apply matches_Seq_cons. exists [x], (m ++ [y]).
    repeat split; [now constructor |].
    apply matches_Seq_cons. exists m, [y].
    repeat split; [now apply matches_Star_Cls |].
    apply matches_Seq_cons. exists [y], [].
    repeat split; [now constructor | now apply matches_Seq_nil].
Qed.

Lemma isUserFacingErrorMessage_spec t :
  isUserFacingErrorMessage t = true <->
  ~ Technical t /\ 10 < length t /\ TwoLowercase t.
Proof.
  unfold isUserFacingErrorMessage.
  rewrite !andb_true_iff, negb_true_iff, Nat.ltb_lt, reTwoLower_spec.
  rewrite <- technicalPatterns_spec.
  destruct (existsb _ technicalPatterns); split; intros [[? ?] ?]
    || intros [? [? ?]]; try congruence; auto.
Qed.
End ThrowFacts.

Section EarlyFacts.
Implicit Types (s t m : str).

Lemma looksLikeKey_spec t : looksLikeKey t = true <-> KeyLike t.
Proof.
  split; [| apply looksLikeKey_KeyLike].
  unfold looksLikeKey, KeyLike.
  intros [[Hne Hall]%test_full%matches_Plus_Cls Hdot%includes_one]%andb_true_iff.
  auto.
Qed.

Lemma hasInterpolation_spec t :
  hasInterpolation t = true <-> Contains (u "${") t /\ Contains (u "}") t.
Proof.
  unfold hasInterpolation. now rewrite andb_true_iff, !Contains_includes.
Qed.

Lemma looksLikeTemplate_sound t :
  looksLikeTemplate t = true ->
  I18nAsset t \/ (Contains (u "${") t /\ Contains (u "}") t).
Proof.
  unfold looksLikeTemplate. intros [Hm%test_full | Hm%test_anywhere]%orb_true_iff.
  - right.
    apply matches_Seq_cons in Hm as (p1 & r1 & -> & ->%matches_Lit & Hm).
    apply matches_Seq_cons in Hm as (p2 & r2 & -> & _ & Hm).
    apply matches_Seq_cons in Hm as (p3 & r3 & -> & ->%matches_Lit & ->%matches_Seq_nil).
    split.
    + exists [], (p2 ++ u "}" ++ []). reflexivity.
    + exists (u "${" ++ p2), []. rewrite <- !app_assoc. reflexivity.
  - left. destruct Hm as (a & m & b & -> & Hm).
    apply matches_Seq_cons in Hm as (p1 & r1 & -> & ->%matches_Lit & Hm).
    apply matches_Seq_cons in Hm as (p2 & r2 & -> & Hd%matches_Star_Cls & Hm).
    apply matches_Seq_cons in Hm as (p3 & r3 & -> & ->%matches_Lit & ->%matches_Seq_nil).
    exists a, p2, b. split; [| exact Hd].
    rewrite <- !app_assoc. reflexivity.
Qed.

Lemma looksLikeTemplate_asset t : I18nAsset t -> looksLikeTemplate t = true.
Proof.
  intros (a & m & b & -> & Hd). unfold looksLikeTemplate.
  apply orb_true_iff. right. apply test_anywhere.
  exists a, (u "assets/i18n/" ++ m ++ u ".json"), b. split.
  { rewrite <- !app_assoc. reflexivity. }
  apply matches_Seq_cons. exists (u "assets/i18n/"), (m ++ u ".json").
  repeat split; [now apply matches_Lit |].
  apply matches_Seq_cons. exists m, (u ".json").
  repeat split; [now apply matches_Star_Cls |].
  apply matches_Seq_cons. exists (u ".json"), [].
  repeat split; [now apply matches_Lit | now apply matches_Seq_nil].
Qed.

Lemma early_spec t :
  looksLikeKey t || looksLikeTemplate t || hasInterpolation t = true
  <-> EarlyRejected t.
Proof.
  unfold EarlyRejected.
  rewrite !orb_true_iff, looksLikeKey_spec, hasInterpolation_spec. split.
  - intros [[Hk | Ht] | Hi]; [tauto | | tauto].
    apply looksLikeTemplate_sound in Ht. tauto.
  - intros [Hk | [Ha | Hi]]; [tauto | | tauto].
    left. right. now apply looksLikeTemplate_asset.
Qed.

Lemma isDisplayText_thrown s c :
  isThrow c = true -> isImport c = false -> isRequire c = false ->
  isDecorator c = false -> isComponentDecorator c = false ->
  isConsole c = false ->
  isDisplayText s (Some c)
  = negb (looksLikeKey (trim s) || looksLikeTemplate (trim s)
          || hasInterpolation (trim s))
    && isUserFacingErrorMessage (trim s).
Proof.
  intros Ht Hi Hr Hd Hc Hl. unfold isDisplayText.
  rewrite Ht, Hi, Hr, Hd, Hc, Hl. simpl.
  destruct (looksLikeKey _); [reflexivity |].
  destruct (looksLikeTemplate _); [reflexivity |].
  destruct (hasInterpolation _); reflexivity.
Qed.
End EarlyFacts.

(** C7, as the code has it.  For a context that marks a thrown-error
    argument and nothing else: a candidate whose trimmed form is key-like,
    names a translation file or contains [${] and [}] is rejected; any
    other candidate is classified by [isUserFacingErrorMessage] of its
    trimmed form.  And [isUserFacingErrorMessage] holds of a text exactly
    when it has no technical shape (one of the words [undefined], [null],
    [NaN], [TypeError], [ReferenceError], [failed to], [cannot]; an
    ALL_CAPS code; a dotted reference; a call), is longer than 10 code
    units and has two lower-case letters on one line. *)
Theorem thrown_error_classification (s t : str) (c : context) :
  isThrow c = true -> isImport c = false -> isRequire c = false ->
  isDecorator c = false -> isComponentDecorator c = false ->
  isConsole c = false ->
  (EarlyRejected (trim s) -> isDisplayText s (Some c) = false)
  /\ (~ EarlyRejected (trim s) ->
      isDisplayText s (Some c) = isUserFacingErrorMessage (trim s))
  /\ (isUserFacingErrorMessage t = true <->
      ~ Technical t /\ 10 < length t /\ TwoLowercase t).
Proof.
  intros Ht Hi Hr Hd Hc Hl.
  rewrite (isDisplayText_thrown s c Ht Hi Hr Hd Hc Hl).
  split; [| split].
  - intros He%early_spec. now rewrite He.
  - intros He. rewrite <- early_spec in He.
    destruct (_ || _ || _); [congruence | reflexivity].
  - apply isUserFacingErrorMessage_spec.
Qed.

Lemma thrown_error_classification_witness :
  isDisplayText (u "Please enter a valid email address") (Some thrownContext)
  = isUserFacingErrorMessage (trim (u "Please enter a valid email address"))
  /\ (isUserFacingErrorMessage (u "Your session has expired") = true <->
      ~ Technical (u "Your session has expired")
      /\ 10 < length (u "Your session has expired")
      /\ TwoLowercase (u "Your session has expired")).
Proof.
  pose proof (thrown_error_classification
                (u "Please enter a valid email address")
                (u "Your session has expired") thrownContext
                eq_refl eq_refl eq_refl eq_refl eq_refl eq_refl)
    as (_ & Hok & Hmsg).
  split; [| exact Hmsg].
  apply Hok. intros He%early_spec. vm_compute in He. discriminate.
Defined.

(** C7 as stated fails: a key-like message is rejected before the context
    is looked at, although [isUserFacingErrorMessage] accepts it. *)
Lemma thrown_key_like_message :
  isDisplayText (u "Unauthorized.") (Some thrownContext)
  <> isUserFacingErrorMessage (trim (u "Unauthorized.")).
Proof. vm_compute. discriminate. Qed.

(** ** Markup extractor: attributes *)

Section AttributeFacts.
Variable o : options.

Lemma isExcluded_empty v : length (trim v) = 0 -> isExcluded v = true.
Proof. intros E. unfold isExcluded. now rewrite E. Qed.

Lemma trim_nil : trim [] = [].
Proof. reflexivity. Qed.

Lemma visitAttribute_fst attr s a :
  fst (visitAttribute o attr (s, a))
  = match attr_get (u attr) a with
    | Some v => if extractable v then record o s v else s
    | None => s
    end.
Proof.
  unfold visitAttribute, extractable, record.
  destruct (attr_get (u attr) a) as [v |]; [| reflexivity].
  destruct (isExcluded v) eqn:Ex.
  - simpl. now rewrite !andb_false_r.
  - assert (0 < length (trim v)) as Ht.
    { destruct (length (trim v)) eqn:E; [| lia].
      apply isExcluded_empty in E. congruence. }
    assert (0 < length v) as Hv.
    { destruct v; [| simpl; lia]. rewrite trim_nil in Ht. simpl in Ht. lia. }
    apply Nat.ltb_lt in Ht, Hv. rewrite Ht, Hv. simpl.
    destruct (_ || _ || _ || _); [reflexivity |].
    simpl. destruct (extract o v v s). reflexivity.
Qed.

Lemma attr_get_set_ne n k v a :
  k <> n -> attr_get n (attr_set k v a) = attr_get n a.
Proof.
  intros Hne. unfold attr_set.
  assert (str_eqb k n = false) as Hkn by now apply bool_decide_eq_false_2.
  induction a as [| [k' v'] a IH]; cbn [map_set attr_get].
  - now rewrite Hkn.
  - destruct (str_eqb k k') eqn:E; cbn [attr_get].
    + apply bool_decide_eq_true in E. subst k'. now rewrite Hkn.
    + destruct (str_eqb k' n); [reflexivity | exact IH].
Qed.

Lemma visitAttribute_other attr n s a :
  u attr <> n ->
  attr_get n (snd (visitAttribute o attr (s, a))) = attr_get n a.
Proof.
  intros Hne. unfold visitAttribute.
  destruct (attr_get (u attr) a) as [v |]; [| reflexivity].
  destruct (_ && _ && _); [| reflexivity].
  destruct (_ || _ || _ || _); [reflexivity |].
  destruct (extract o v v s). simpl.
  destruct (replace o); [now apply attr_get_set_ne | reflexivity].
Qed.

Lemma visitAttribute_list names : forall s a a0,
  NoDup (map u names) ->
  (forall n, In n names -> attr_get (u n) a = attr_get (u n) a0) ->
  fst (fold_left (fun acc attr => visitAttribute o attr acc) names (s, a))
  = fold_left (record o)
      (List.filter extractable (omap (fun n => attr_get (u n) a0) names)) s.
Proof.
  induction names as [| n names IH]; intros s a a0 Hnd Hsame; [reflexivity |].
  cbn [fold_left]. apply NoDup_cons in Hnd as [Hn Hnd].
  destruct (visitAttribute o n (s, a)) as [s1 a1] eqn:E.
  rewrite (IH s1 a1 a0 Hnd).
  - pose proof (visitAttribute_fst n s a) as Hs. rewrite E in Hs. simpl in Hs.
    rewrite (Hsame n) in Hs by (now left). cbn [omap list_omap].
    destruct (attr_get (u n) a0) as [v |]; [| now subst].
    cbn [List.filter]. destruct (extractable v); now subst.
  - intros n' Hin. rewrite <- Hsame by (now right).
    pose proof (visitAttribute_other n (u n') s a) as Ho.
    rewrite E in Ho. apply Ho. intros Heq. apply Hn.
    rewrite Heq. apply list_elem_of_In, in_map, Hin.
Qed.

Lemma attributes_distinct : NoDup (map u attributes).
Proof. apply (bool_decide_unpack _). vm_compute. exact I. Qed.

Lemma visitAttributes_fst el s doc :
  fst (visitAttributes o el (s, doc))
  = fold_left (record o)
      (List.filter extractable
         (omap (fun n => attr_get (u n) (attrs (snd el))) attributes)) s.
Proof.
  unfold visitAttributes. cbn [fst snd].
  rewrite <- (visitAttribute_list attributes s (attrs (snd el)) (attrs (snd el))
                attributes_distinct (fun _ _ => eq_refl)).
  destruct (fold_left _ attributes _). reflexivity.
Qed.

Lemma attributePass_elements els : forall s doc,
  fst (fold_left (fun st el => visitAttributes o el st) els (s, doc))
  = fold_left (record o)
      (List.filter extractable
         (flat_map (fun el => omap (fun attr => attr_get (u attr) (attrs (snd el)))
                                   attributes) els)) s.
Proof.
  induction els as [| el els IH]; intros s doc; [reflexivity |].
  cbn [fold_left flat_map].
  destruct (visitAttributes o el (s, doc)) as [s1 doc1] eqn:E.
  rewrite IH, List.filter_app, fold_left_app. f_equal.
  pose proof (visitAttributes_fst el s doc) as Hs. now rewrite E in Hs.
Qed.

(** C3, as the code has it.  The second loop of the markup extractor
    extracts, each under its own fresh key and in document order, exactly
    the values of the attributes [title], [alt], [placeholder] and
    [aria-label] that [isExcluded] does not exclude and that contain none
    of [{{], [}}], [[] and [(]; [isDisplayText] is not consulted. *)
Theorem attributes_extracted (doc : list node) (s : session) :
  fst (attributePass o doc s)
  = fold_left (record o) (List.filter extractable (attributeValues doc)) s.
Proof. apply attributePass_elements. Qed.
End AttributeFacts.

(** C3 as stated fails in both directions: an attribute value the
    classifier rejects is extracted, and one it accepts is not. *)
Lemma attribute_ignores_classifier :
  let o := Options [] [] [] (u "app") false in
  (extractedTexts
     (fst (attributePass o [Elem (u "img") [(u "alt", u "userId")] []] new_session))
   = [(u "app.userid_1", u "userId")]
   /\ isDisplayText (u "userId") None = false)
  /\ (extractedTexts
        (fst (attributePass o [Elem (u "img") [(u "title", u "1, 2, 3")] []] new_session))
      = []
      /\ isDisplayText (u "1, 2, 3") None = true
      /\ includes (u "{{") (u "1, 2, 3") = false
      /\ includes (u "}}") (u "1, 2, 3") = false
      /\ includes (u "[") (u "1, 2, 3") = false
      /\ includes (u "(") (u "1, 2, 3") = false).
Proof. vm_compute. repeat split. Qed.

(** ** Markup extractor: files *)

Section FileFacts.
Context `{Platform}.
Variable o : options.

Lemma readFile_run p st :
  readFile p st
  = match files (wld st) !! p with
    | Some content => (Ok content, st)
    | None => (Throw (enoent p), st)
    end.
Proof.
  unfold readFile, bind, get_world. destruct (files (wld st) !! p); reflexivity.
Qed.

Lemma writeFile_run p content st :
  writeFile p content st
  = if bool_decide (p ∈ readonly (wld st))
    then (Throw (eacces p), st)
    else (Ok tt, stored p content st).
Proof.
  unfold writeFile, bind, get_world.
  destruct (bool_decide (p ∈ readonly (wld st))); reflexivity.
Qed.

Lemma print_run l st : print l st = (Ok tt, warned l st).
Proof. reflexivity. Qed.

(** What the [try] block does, case by case. *)
Lemma processHtmlTemplate_run filePath st :
  processHtmlTemplate o filePath st
  = match files (wld st) !! filePath with
    | None =>
        (Throw (enoent filePath),
         withSession (setComponentContext filePath (sess st)) st)
    | Some content =>
        let st2 := withSession (fst (scanned o filePath content (sess st))) st in
        if replace o then
          if bool_decide (filePath ∈ readonly (wld st))
          then (Throw (eacces filePath), st2)
          else (Ok tt, stored filePath (rewritten o filePath content (sess st)) st2)
        else (Ok tt, st2)
    end.
Proof.
  unfold processHtmlTemplate, rewritten, scanned.
  unfold bind at 1. unfold get_session at 1. cbn [sess wld].
  unfold bind at 1. unfold put_session at 1. cbn [sess wld].
  unfold bind at 1. rewrite readFile_run. cbn [sess wld].
  destruct (files (wld st) !! filePath) as [content |]; [| reflexivity].
  unfold bind at 1. unfold get_session at 1. cbn [sess wld].
  destruct (attributePass o _ _) as [s2 doc2] eqn:E.
  unfold bind at 1. unfold put_session at 1. cbn [sess wld fst snd].
  destruct (replace o); [| reflexivity].
  rewrite writeFile_run. cbn [wld]. reflexivity.
Qed.

(** What [extractFromHtmlTemplate] does, case by case. *)
Lemma extractFromHtmlTemplate_run filePath st :
  extractFromHtmlTemplate o filePath st
  = match processHtmlTemplate o filePath st with
    | (Ok tt, st') => (Ok tt, st')
    | (Throw e, st') =>
        (Ok tt,
         warned (Warn [u "Warning: Could not process HTML template "
                         ++ filePath ++ u ":"; message e]) st')
    end.
Proof.
  unfold extractFromHtmlTemplate, try_catch.
  destruct (processHtmlTemplate o filePath st) as [[[] | e] st']; reflexivity.
Qed.

Lemma extractFromHtmlTemplate_returns filePath st :
  fst (extractFromHtmlTemplate o filePath st) = Ok tt.
Proof.
  rewrite extractFromHtmlTemplate_run.
  destruct (processHtmlTemplate o filePath st) as [[[] | e] st']; reflexivity.
Qed.

Lemma forEachFile_cons dirPath file rest st :
  forEachFile o dirPath (file :: rest) st
  = forEachFile o dirPath rest
      (snd (extractFromHtmlTemplate o (Path.join dirPath file) st)).
Proof.
  cbn [forEachFile]. unfold bind at 1.
  pose proof (extractFromHtmlTemplate_returns (Path.join dirPath file) st) as Hr.
  destruct (extractFromHtmlTemplate o (Path.join dirPath file) st) as [r st'].
  simpl in Hr. subst r. reflexivity.
Qed.
End FileFacts.

Section SessionFacts.
Context `{Platform}.
Variable o : options.

Lemma forEachFile_nil dirPath st : forEachFile o dirPath [] st = (Ok tt, st).
Proof. reflexivity. Qed.

Lemma extractFromDirectory_run dirPath st :
  extractFromDirectory o dirPath st
  = let htmlFiles := glob_sync (files (wld st)) (u "**/*.html") dirPath in
    forEachFile o dirPath htmlFiles
      (warned (Log [u "Found " ++ decimal (N.of_nat (length htmlFiles))
                      ++ u " HTML files"]) st).
Proof. reflexivity. Qed.

Lemma saveToJSON_run outPath st :
  saveToJSON o outPath st
  = if bool_decide (outPath ∈ readonly (wld st))
    then (Throw (eacces outPath), st)
    else (Ok tt,
          warned (Log [[55357; 56510]%N ++ u " Saved "
                         ++ decimal (N.of_nat (length (extractedTexts (sess st))))
                         ++ u " translations to " ++ outPath])
                 (stored outPath (json_stringify (output o (sess st))) st)).
Proof.
  unfold saveToJSON, mkdir. unfold bind at 1. unfold ret at 1.
  unfold bind at 1. unfold get_session at 1.
  unfold bind at 1. rewrite writeFile_run.
  destruct (bool_decide (outPath ∈ readonly (wld st))); reflexivity.
Qed.

Lemma extractTexts_run w :
  extractTexts o w
  = match extractFromDirectory o (srcPath o) {| sess := new_session; wld := w |} with
    | (Ok _, st) => saveToJSON o (outputPath o) st
    | (Throw e, st) => (Throw e, st)
    end.
Proof.
  unfold extractTexts, bind.
  destruct (extractFromDirectory o (srcPath o) _) as [[[] | e] st]; reflexivity.
Qed.

(** *** Errors of one file *)

(** C9. An error raised while reading or processing one markup file is
    caught by [extractFromHtmlTemplate]: it logs a warning with the file
    path and the error message and returns normally, so the loop over the
    files goes on with the next file.  When the file cannot be read, the
    extracted texts, the key counter and the files are as they were. *)
Theorem per_file_errors_recovered
    (dirPath file : str) (rest : list str) (st st1 : state) (e : error) :
  let filePath := Path.join dirPath file in
  (processHtmlTemplate o filePath st = (Throw e, st1) ->
   extractFromHtmlTemplate o filePath st
   = (Ok tt, warned (warning filePath e) st1))
  /\ fst (extractFromHtmlTemplate o filePath st) = Ok tt
  /\ forEachFile o dirPath (file :: rest) st
     = forEachFile o dirPath rest (snd (extractFromHtmlTemplate o filePath st))
  /\ (files (wld st) !! filePath = None ->
      let st' := snd (extractFromHtmlTemplate o filePath st) in
      console (wld st') = console (wld st) ++ [warning filePath (enoent filePath)]
      /\ extractedTexts (sess st') = extractedTexts (sess st)
      /\ keyCounter (sess st') = keyCounter (sess st)
      /\ files (wld st') = files (wld st)
      /\ written (wld st') = written (wld st)).
Proof.
  intros filePath. split; [| split; [| split]].
  - intros Hp. rewrite extractFromHtmlTemplate_run, Hp. reflexivity.
  - apply extractFromHtmlTemplate_returns.
  - apply forEachFile_cons.
  - intros Hnone st'. subst st'.
    rewrite extractFromHtmlTemplate_run, processHtmlTemplate_run, Hnone.
    repeat split.
Qed.

(** *** Runs without [replace] *)

Lemma dry_run_template filePath st :
  replace o = false ->
  sameFiles st (snd (extractFromHtmlTemplate o filePath st)).
Proof.
  intros Hr. rewrite extractFromHtmlTemplate_run, processHtmlTemplate_run, Hr.
  destruct (files (wld st) !! filePath); repeat split.
Qed.

Lemma dry_run_loop dirPath htmlFiles : forall st,
  replace o = false ->
  fst (forEachFile o dirPath htmlFiles st) = Ok tt
  /\ sameFiles st (snd (forEachFile o dirPath htmlFiles st)).
Proof.
  induction htmlFiles as [| file rest IH]; intros st Hr.
  - repeat split.
  - rewrite forEachFile_cons.
    destruct (IH (snd (extractFromHtmlTemplate o (Path.join dirPath file) st)) Hr)
      as (Hok & Hf & Hro & Hw).
    destruct (dry_run_template (Path.join dirPath file) st Hr) as (Hf' & Hro' & Hw').
    split; [exact Hok |]. unfold sameFiles. rewrite Hf, Hro, Hw. auto.
Qed.

Lemma dry_run_directory dirPath st :
  replace o = false ->
  fst (extractFromDirectory o dirPath st) = Ok tt
  /\ sameFiles st (snd (extractFromDirectory o dirPath st)).
Proof.
  intros Hr. rewrite extractFromDirectory_run. cbv zeta.
  set (st0 := warned _ st).
  destruct (dry_run_loop dirPath (glob_sync (files (wld st)) (u "**/*.html") dirPath)
              st0 Hr) as (Hok & Hf & Hro & Hw).
  split; [exact Hok |]. unfold sameFiles. rewrite Hf, Hro, Hw. repeat split.
Qed.

(** C5. In a run with [replace = false] the only call of [fs.writeFile]
    is the one for the output artifact (none at all when that write is
    refused), so every file other than the artifact has, after the run,
    the content it had before. *)
Theorem dry_run_frame (w : world) :
  replace o = false ->
  let st' := snd (extractTexts o w) in
  (forall p, p <> outputPath o -> files (wld st') !! p = files w !! p)
  /\ ((fst (extractTexts o w) = Ok tt
       /\ written (wld st') = written w ++ [outputPath o]
       /\ files (wld st') !! outputPath o
          = Some (json_stringify (output o (sess st'))))
      \/ (fst (extractTexts o w) = Throw (eacces (outputPath o))
          /\ written (wld st') = written w
          /\ files (wld st') = files w)).
Proof.
  intros Hr st'. subst st'. rewrite extractTexts_run.
  destruct (dry_run_directory (srcPath o) {| sess := new_session; wld := w |} Hr)
    as (Hok & Hf & Hro & Hw).
  destruct (extractFromDirectory o (srcPath o) _) as [r st]. simpl in *. subst r.
  rewrite saveToJSON_run.
  destruct (bool_decide (outputPath o ∈ readonly (wld st))); simpl.
  - rewrite Hf, Hw. split; [reflexivity |]. right. repeat split.
  - rewrite Hf, Hw. split.
    + intros p Hp. now rewrite lookup_insert_ne.
    + left. repeat split. now rewrite lookup_insert_eq.
Qed.

(** *** Runs with [replace] *)

(** C4, the code at work: with [replace] set, a markup file that can be
    read and written is written back whether or not anything was
    extracted from it. *)
Theorem replace_always_writes (filePath content : str) (st : state) :
  replace o = true ->
  files (wld st) !! filePath = Some content ->
  filePath ∉ readonly (wld st) ->
  let st' := snd (extractFromHtmlTemplate o filePath st) in
  written (wld st') = written (wld st) ++ [filePath]
  /\ files (wld st') !! filePath = Some (rewritten o filePath content (sess st)).
Proof.
  intros Hr Hf Hro st'. subst st'.
  rewrite extractFromHtmlTemplate_run, processHtmlTemplate_run, Hf, Hr. cbv zeta.
  rewrite bool_decide_eq_false_2 by exact Hro. simpl.
  split; [reflexivity | now rewrite lookup_insert_eq].
Qed.
End SessionFacts.

Section EndToEnd.
Context `{Platform}.
Import Example.

(** A run without [replace] over a directory with one readable markup
    file: the session is the one the two loops leave, and the artifact is
    stored. *)
Lemma single_file_dry_run (o : options) (w : world) (file content : str) :
  replace o = false ->
  glob_sync (files w) (u "**/*.html") (srcPath o) = [file] ->
  files w !! Path.join (srcPath o) file = Some content ->
  outputPath o ∉ readonly w ->
  let s := fst (scanned o (Path.join (srcPath o) file) content new_session) in
  let r := extractTexts o w in
  fst r = Ok tt
  /\ sess (snd r) = s
  /\ files (wld (snd r)) = <[outputPath o := json_stringify (output o s)]> (files w)
  /\ written (wld (snd r)) = written w ++ [outputPath o].
Proof.
  intros Hr Hg Hf Hro s r. subst s r.
  rewrite extractTexts_run, extractFromDirectory_run. cbv zeta.
  cbn [wld sess files]. rewrite Hg, forEachFile_cons, forEachFile_nil.
  rewrite extractFromHtmlTemplate_run, processHtmlTemplate_run.
  cbn [warned wld sess files readonly]. rewrite Hf, Hr. cbv zeta.
  cbn [fst snd withSession]. rewrite saveToJSON_run.
  cbn [warned wld sess files readonly].
  rewrite bool_decide_eq_false_2 by exact Hro. repeat split.
Qed.

Lemma scenario_scanned :
  cheerio_load welcomeMarkup
  = wrap [Elem (u "h1") [] [Text (u "Welcome to our app")]] ->
  fst (scanned (scenarioOptions false) (u "/src/app.component.html")
         welcomeMarkup new_session)
  = {| extractedTexts := [(u "app.app.welcome_to_our_app_1", u "Welcome to our app")];
       keyCounter := 2;
       currentComponentContext := Some (u "app") |}.
Proof.
  intros Hl. unfold scanned. rewrite Hl. vm_compute. reflexivity.
Qed.

(** C1, the code at work.  For the directory of the scenario (one markup
    file with [<h1>Welcome to our app</h1>], one component-logic file
    with [title = 'Welcome to our app';]), [keyPrefix = "app"] and
    [replace = false], the run succeeds and writes an artifact with one
    translation, the heading of the markup file, and [totalTexts = 1]:
    [extractFromDirectory] only looks for [.html] files. *)
Theorem scenario_extracts_markup_only :
  glob_sync scenarioFiles (u "**/*.html") (u "/src") = [u "app.component.html"] ->
  cheerio_load welcomeMarkup
  = wrap [Elem (u "h1") [] [Text (u "Welcome to our app")]] ->
  let r := extractTexts (scenarioOptions false) scenario in
  fst r = Ok tt
  /\ output (scenarioOptions false) (sess (snd r)) = scenarioArtifact
  /\ files (wld (snd r)) !! u "/i18n/en.json"
     = Some (json_stringify scenarioArtifact)
  /\ length (translations scenarioArtifact) = 1
  /\ totalTexts (meta scenarioArtifact) = 1.
Proof.
  intros Hg Hl r.
  destruct (single_file_dry_run (scenarioOptions false) scenario
              (u "app.component.html") welcomeMarkup eq_refl Hg)
    as (Hok & Hs & Hf & _).
  { vm_compute. reflexivity. }
  { set_solver. }
  fold r in Hok, Hs, Hf.
  change (Path.join (srcPath (scenarioOptions false)) (u "app.component.html"))
    with (u "/src/app.component.html") in Hs, Hf.
  rewrite (scenario_scanned Hl) in Hs, Hf.
  split; [exact Hok |]. split; [now rewrite Hs |].
  split; [| split; reflexivity].
  rewrite Hf. apply lookup_insert_eq.
Qed.
End EndToEnd.

(** The scenario on the example platform. *)
Lemma scenario_extracts_markup_only_witness :
  let r := @extractTexts Example.platform (Example.scenarioOptions false)
             Example.scenario in
  fst r = Ok tt
  /\ extractedTexts (sess (snd r))
     = [(u "app.app.welcome_to_our_app_1", u "Welcome to our app")]
  /\ totalTexts (meta (@output Example.platform (Example.scenarioOptions false)
                         (sess (snd r)))) = 1.
Proof.
  intros r.
  destruct (@scenario_extracts_markup_only Example.platform) as (Hok & Ho & _).
  - vm_compute. reflexivity.
  - vm_compute. reflexivity.
  - fold r in Hok, Ho. split; [exact Hok |]. rewrite Ho. split; reflexivity.
Defined.

(** A markup file that is missing when the loop reaches it. *)
Lemma per_file_errors_recovered_witness :
  let o := Example.scenarioOptions false in
  let st := {| sess := new_session; wld := Example.scenario |} in
  let r := @extractFromHtmlTemplate Example.platform o (u "/src/missing.html") st in
  fst r = Ok tt
  /\ console (wld (snd r))
     = [Warn [u "Warning: Could not process HTML template /src/missing.html:";
              u "ENOENT: no such file or directory, open '/src/missing.html'"]]
  /\ extractedTexts (sess (snd r)) = []
  /\ keyCounter (sess (snd r)) = 1%N
  /\ files (wld (snd r)) = Example.scenarioFiles.
Proof.
  intros o st r.
  destruct (@per_file_errors_recovered Example.platform o
              (u "/src") (u "missing.html") [] st st (Error []))
    as (_ & Hok & _ & Hmissing).
  destruct Hmissing as (Hc & Ht & Hk & Hf & _); [vm_compute; reflexivity |].
  split; [exact Hok |]. split; [exact Hc |]. split; [exact Ht |].
  split; [exact Hk | exact Hf].
Defined.

(** The scenario, run without [replace]: one write, the artifact. *)
Lemma dry_run_frame_witness :
  let o := Example.scenarioOptions false in
  let st' := snd (@extractTexts Example.platform o Example.scenario) in
  files (wld st') !! u "/src/app.component.html" = Some Example.welcomeMarkup
  /\ files (wld st') !! u "/src/app.component.ts"
     = Some (u "title = 'Welcome to our app';")
  /\ written (wld st') = [u "/i18n/en.json"].
Proof.
  intros o st'.
  destruct (@dry_run_frame Example.platform o Example.scenario eq_refl)
    as (Hframe & [(_ & Hw & _) | (Hthrow & _)]).
  - fold st' in Hframe, Hw.
    split; [| split; [| exact Hw]].
    + rewrite Hframe; [vm_compute; reflexivity | discriminate].
    + rewrite Hframe; [vm_compute; reflexivity | discriminate].
  - vm_compute in Hthrow. discriminate.
Defined.

(** C4 at a failing input: with [replace] set, a markup file from which
    nothing is extracted is written back all the same. *)
Lemma replace_always_writes_witness :
  let o := Example.scenarioOptions true in
  let w := {| files := {[ u "/src/empty.component.html" := Example.emptyMarkup ]};
              readonly := ∅; console := []; written := [] |} in
  let st := {| sess := new_session; wld := w |} in
  let st' := snd (@extractFromHtmlTemplate Example.platform o
                    (u "/src/empty.component.html") st) in
  extractedTexts (sess st') = []
  /\ written (wld st') = [u "/src/empty.component.html"].
Proof.
  intros o w st st'.
  destruct (@replace_always_writes Example.platform o
              (u "/src/empty.component.html") Example.emptyMarkup st eq_refl)
    as (Hw & _).
  - vm_compute. reflexivity.
  - set_solver.
  - fold st' in Hw. split; [vm_compute; reflexivity | exact Hw].
Defined.

(** ** The expectations of the repository's tests, on the embedding *)

Example extractComponentName_tests :
  extractComponentName (u "/path/to/user-profile.component.html") = u "userProfile"
  /\ extractComponentName (u "/path/to/login.component.ts") = u "login"
  /\ extractComponentName (u "/path/to/auth.service.ts") = u "auth"
  /\ extractComponentName (u "/path/to/app-header.component.html") = u "header"
  /\ extractComponentName (u "/path/to/ng-custom.component.ts") = u "custom"
  /\ extractComponentName
       (u "/path/to/very-long-component-name-that-exceeds-limit.component.html")
     = u "vlcntel"
  /\ extractComponentName (u "/path/to/simple.html") = u "simple"
  /\ extractComponentName (u "/path/to/.component.html") = u "comp".
Proof. repeat split; vm_compute; reflexivity. Qed.

Example generateKey_tests :
  fst (generateKey (Example.scenarioOptions false) (u "Hello, World!") None
         (setComponentContext (u "/path/to/user-profile.component.ts") new_session))
  = u "app.userProfile.hello_world_1"
  /\ fst (generateKey (Example.scenarioOptions false)
            (u "This is a very long text that should be truncated") None
            (setComponentContext (u "/path/to/test.component.html") new_session))
     = u "app.test.this_is_a_very_long_text__1"
  /\ fst (generateKey (Example.scenarioOptions false) (u "Hello World")
            (Some (u "/path/to/custom.component.html")) new_session)
     = u "app.custom.hello_world_1"
  /\ fst (generateKey (Example.scenarioOptions false) (u "Hello World") None
            new_session)
     = u "app.hello_world_1".
Proof. repeat split; vm_compute; reflexivity. Qed.

Example isDisplayText_tests :
  forallb (fun s => negb (isDisplayText (u s) None))
    ["@angular/core"; "rxjs/operators"; "someVariable"; "user_id"; "API_KEY";
     "./config/app.json"; "../shared/utils"; "/api/users"; "src/app/components";
     "https://example.com"; "http://localhost:3000"; "ftp://files.example.com";
     "ngOnInit"; "UserService"; "AppComponent"; "CustomDirective"; "utf-8";
     "application/json"; "POST"; "2.0.0-beta"; "abc123def456"; ".btn-primary";
     "#main-content"; "color:red"; "ok"; "no"; "a"]%string
  = true
  /\ forallb (fun s => isDisplayText (u s) None)
       ["Hello World"; "Welcome to our app"; "Save your work"]%string
     = true.
Proof. split; vm_compute; reflexivity. Qed.

Example isUserFacingErrorMessage_tests :
  isUserFacingErrorMessage (u "Please enter a valid email address") = true
  /\ isUserFacingErrorMessage (u "Your session has expired") = true
  /\ isUserFacingErrorMessage (u "TypeError: Cannot read property") = false
  /\ isUserFacingErrorMessage (u "failed to connect()") = false
  /\ isUserFacingErrorMessage (u "INVALID_CREDENTIALS") = false.
Proof. repeat split; vm_compute; reflexivity. Qed.

(** Nested markup is extracted once, as the inner markup of the parent. *)
Example nested_markup_one_entry :
  let doc := Example.wrap
               [Elem (u "p") []
                  [Text (u "This is ");
                   Elem (u "strong") [] [Text (u "important")];
                   Text (u " information")]] in
  extractedTexts
    (passSession (@contentPass Example.platform (Example.scenarioOptions false)
                    doc new_session))
  = [(u "app.this_is_important_informa_1",
      u "This is <strong>important</strong> information")].
Proof. vm_compute. reflexivity. Qed.

(** With [replace], the heading of the scenario becomes a placeholder. *)
Example replace_rewrites_heading :
  let r := @extractFromHtmlTemplate Example.platform (Example.scenarioOptions true)
             (u "/src/app.component.html")
             {| sess := new_session; wld := Example.scenario |} in
  files (wld (snd r)) !! u "/src/app.component.html"
  = Some (u "<h1>{{ 'app.app.welcome_to_our_app_1' | translate }}</h1>").
Proof. vm_compute. reflexivity. Qed.

(* ===================================================================== *)
(** * Further properties of the extractor *)
(* ===================================================================== *)

(** ** Trimming *)

Section TrimFacts.
Implicit Types (s t : str) (p : char -> bool).

Lemma dropWhile_split p s :
  exists a, s = a ++ dropWhile p s /\ forallb p a = true.
Proof.
  induction s as [| c s (a & Hs & Ha)]; simpl.
  - exists []. auto.
  - destruct (p c) eqn:Hc.
    + exists (c :: a). simpl. rewrite Hc, Ha. split; [congruence | reflexivity].
    + exists []. auto.
Qed.

Lemma dropWhile_head p s c r : dropWhile p s = c :: r -> p c = false.
Proof.
  induction s as [| d s IH]; simpl; [discriminate |].
  destruct (p d) eqn:Hd; [exact IH |]. intros E. injection E as <- _. exact Hd.
Qed.

Lemma dropWhile_fixed p s :
  (forall c r, s = c :: r -> p c = false) -> dropWhile p s = s.
Proof.
  destruct s as [| c r]; [reflexivity |]. intros H. simpl.
  now rewrite (H c r eq_refl).
Qed.

Lemma dropWhile_idem p s : dropWhile p (dropWhile p s) = dropWhile p s.
Proof.
  apply dropWhile_fixed. intros c r E. eapply dropWhile_head; eauto.
Qed.

(** A trimmed string neither starts nor ends with white space. *)
Lemma trim_ends s :
  (forall c r, trim s = c :: r -> Ch.space c = false)
  /\ (forall r c, trim s = r ++ [c] -> Ch.space c = false).
Proof.
  unfold trim, trimEnd, trimStart.
  destruct (dropWhile_split Ch.space (rev (dropWhile Ch.space s))) as (a & Ha & _).
  set (t := dropWhile Ch.space s) in *.
  set (q := dropWhile Ch.space (rev t)) in *.
  assert (t = rev q ++ rev a) as Ht.
  { rewrite <- rev_app_distr, <- Ha. now rewrite rev_involutive. }
  split.
  - intros c r E. rewrite E in Ht. simpl in Ht.
    eapply (dropWhile_head Ch.space s c). exact Ht.
  - intros r c E.
    assert (q = c :: rev r) as Hq.
    { rewrite <- (rev_involutive q), E, rev_app_distr. reflexivity. }
    eapply dropWhile_head. exact Hq.
Qed.

Lemma trim_idem s : trim (trim s) = trim s.
Proof.
  destruct (trim_ends s) as [Hfirst Hlast].
  unfold trim at 1. unfold trimStart, trimEnd.
  rewrite (dropWhile_fixed Ch.space (trim s) Hfirst).
  rewrite dropWhile_fixed; [apply rev_involutive |].
  intros c r E. apply (Hlast (rev r) c).
  rewrite <- (rev_involutive (trim s)), E. reflexivity.
Qed.
End TrimFacts.

(** X1. The two filters look at the trimmed text only: white space around
    a candidate changes neither [isExcluded] nor [isDisplayText], whatever
    the context. *)
Theorem filters_ignore_outer_space (s : str) (ctx : option context) :
  trim (trim s) = trim s
  /\ isExcluded (trim s) = isExcluded s
  /\ isDisplayText (trim s) ctx = isDisplayText s ctx.
Proof.
  split; [apply trim_idem |].
  unfold isExcluded, isDisplayText. now rewrite trim_idem.
Qed.

(** ** Exclusion *)

(** X2. [isExcluded] holds of a text exactly when its trimmed form has
    fewer than 2 code units or consists only of digits, white space and the
    punctuation [-_.,;:!?()[]{}]; the test [/^\s*$/] adds nothing. *)
Theorem isExcluded_spec (text : str) :
  isExcluded text = true <->
  length (trim text) < 2 \/ forallb punctChar (trim text) = true.
Proof.
  unfold isExcluded. set (t := trim text).
  rewrite !orb_true_iff, Nat.eqb_eq, Nat.ltb_lt, !test_full.
  change punct with (Cls punctChar).
  rewrite matches_Star_Cls, matches_Plus_Cls. split.
  - intros [[[H0 | H2] | Hs] | [_ Hp]]; [left; lia | now left | | now right].
    right. rewrite forallb_forall in *. intros c Hc.
    unfold punctChar. rewrite (Hs c Hc). now rewrite orb_true_r.
  - intros [H2 | Hp]; [left; left; now right |].
    destruct t as [| c r]; [left; left; now left |].
    right. split; [discriminate | exact Hp].
Qed.

Lemma isExcluded_spec_witness :
  isExcluded (u " 1, 2, 3 ") = true /\ isExcluded (u " x ") = true.
Proof.
  split.
  - apply (isExcluded_spec (u " 1, 2, 3 ")). right. vm_compute. reflexivity.
  - apply (isExcluded_spec (u " x ")). left. vm_compute. lia.
Defined.

(** ** Bare identifiers *)

Lemma isCodeIdentifier_identifier t :
  isCodeIdentifier t = true -> test reIdentifier t = true.
Proof. unfold isCodeIdentifier. now intros [H _]%andb_true_iff. Qed.

Lemma reIdentifier_code : In reIdentifier codePatterns.
Proof. unfold codePatterns. do 14 right. left. reflexivity. Qed.

(** X3. After the context checks, [isDisplayText] accepts a trimmed text
    exactly when no code pattern matches it and it has at least 3 code
    units: the final test on short identifiers never decides anything,
    because an identifier is a code pattern already.  So a bare identifier
    is rejected outside thrown-error contexts, the words [isCodeIdentifier]
    exempts ([title], [name], [label], ...) included. *)
Theorem identifiers_never_display_text (s : str) (ctx : option context) :
  passesPatterns (trim s)
  = negb (existsb (fun p => test p (trim s)) codePatterns)
    && Nat.leb 3 (length (trim s))
  /\ (notThrown ctx -> test reIdentifier (trim s) = true ->
      isDisplayText s ctx = false).
Proof.
  split.
  - unfold passesPatterns.
    destruct (existsb _ codePatterns) eqn:Hcode; [reflexivity |]. cbn [negb andb].
    destruct (Nat.ltb_spec (length (trim s)) 3) as [Hlt | Hge].
    + symmetry. apply Nat.leb_gt. exact Hlt.
    + destruct (isCodeIdentifier (trim s)) eqn:Hid.
      * apply isCodeIdentifier_identifier in Hid.
        assert (existsb (fun p => test p (trim s)) codePatterns = true) as Hex.
        { apply existsb_exists. exists reIdentifier.
          split; [apply reIdentifier_code | exact Hid]. }
        congruence.
      * rewrite !andb_false_r. symmetry. now apply Nat.leb_le.
  - intros Hctx Hid. apply isDisplayText_notThrown_patterns; [exact Hctx |].
    eapply passesPatterns_code; [apply reIdentifier_code | exact Hid].
Qed.

Lemma identifiers_never_display_text_witness :
  isCodeIdentifier (u "title") = false
  /\ isDisplayText (u "title") None = false
  /\ isDisplayText (u " Submit ") None = false.
Proof.
  split; [vm_compute; reflexivity |]. split.
  - apply (identifiers_never_display_text (u "title") None); [exact I |].
    vm_compute. reflexivity.
  - apply (identifiers_never_display_text (u " Submit ") None); [exact I |].
    vm_compute. reflexivity.
Defined.

(** ** Keys *)

Section SlugFacts.
Implicit Types (s t : str) (c : char).

Lemma to_lower_not_upper c : Ch.upper (Ch.to_lower c) = false.
Proof.
  unfold Ch.to_lower. destruct (Ch.upper c) eqn:Hu; [| exact Hu].
  unfold Ch.upper, Ch.in_range in *.
  apply andb_true_iff in Hu as [H1%N.leb_le H2%N.leb_le].
  apply andb_false_iff. right. apply N.leb_gt. lia.
Qed.

Lemma toLowerCase_not_upper s c : In c (toLowerCase s) -> Ch.upper c = false.
Proof.
  unfold toLowerCase. rewrite in_flat_map. intros (d & _ & Hc).
  destruct (N.eqb d 304); [| destruct (N.eqb d 8490)]; simpl in Hc.
  - destruct Hc as [<- | [<- | []]]; reflexivity.
  - destruct Hc as [<- | []]; reflexivity.
  - destruct Hc as [<- | []]. apply to_lower_not_upper.
Qed.

Lemma slugChar_kept c :
  Ch.alnum c || Ch.space c = true -> Ch.upper c = false -> Ch.space c = false ->
  slugChar c = true.
Proof.
  unfold slugChar, Ch.alnum, Ch.alpha. intros H Hu Hs. rewrite Hu, Hs in H.
  rewrite orb_false_r in H. rewrite orb_false_r in H. now rewrite H.
Qed.

Lemma collapse_from_slug b s :
  (forall c, In c s -> Ch.alnum c || Ch.space c = true /\ Ch.upper c = false) ->
  forallb slugChar (collapse_from b s) = true.
Proof.
  revert b. induction s as [| c s IH]; intros b Hs; [reflexivity |].
  assert (forallb slugChar (collapse_from true s) = true
          /\ forallb slugChar (collapse_from false s) = true) as [Ht Hf].
  { split; apply IH; intros d Hd; apply Hs; now right. }
  destruct (Hs c (or_introl eq_refl)) as [Hk Hu].
  pose proof (slugChar_kept c Hk Hu) as Hslug.
  cbn [collapse_from]. destruct (Ch.space c).
  - destruct b; [exact Ht |]. cbn [forallb]. now rewrite Ht.
  - cbn [forallb]. now rewrite Hf, Hslug.
Qed.

Lemma forallb_take {A} (f : A -> bool) n (l : list A) :
  forallb f l = true -> forallb f (take n l) = true.
Proof.
  revert n. induction l as [| x l IH]; intros [| n] H; simpl in *; auto.
  apply andb_true_iff in H as [Hx Hl]. now rewrite Hx, IH.
Qed.

Lemma cleanText_slug text :
  length (cleanText text) <= 25 /\ forallb slugChar (cleanText text) = true.
Proof.
  unfold cleanText, substring0. split.
  - rewrite length_take. lia.
  - apply forallb_take. unfold collapse_ws. apply collapse_from_slug.
    intros c Hc. unfold strip in Hc. apply filter_In in Hc as [Hin Hk].
    rewrite negb_involutive in Hk. split; [exact Hk |].
    eapply toLowerCase_not_upper; eauto.
Qed.

Lemma extractComponentName_nonempty filePath : extractComponentName filePath <> [].
Proof.
  unfold extractComponentName.
  set (camel := camelize _). set (abbr := toLowerCase _).
  destruct (Nat.ltb 15 (length camel)) eqn:Hlong.
  - destruct (Nat.leb 2 (length abbr)) eqn:Habbr.
    + apply Nat.leb_le in Habbr. destruct abbr; [simpl in Habbr; lia | discriminate].
    + apply Nat.ltb_lt in Hlong. unfold substring0.
      destruct camel; [simpl in Hlong; lia | discriminate].
  - destruct camel; discriminate.
Qed.
End SlugFacts.

(** X4. The slug [generateKey] derives from a text has at most 25 code
    units, each of them in [a-z0-9_], whatever the text. *)
Theorem slug_alphabet (text : str) :
  length (cleanText text) <= 25 /\ forallb slugChar (cleanText text) = true.
Proof. apply cleanText_slug. Qed.

(** X5. [extractComponentName] never returns the empty string, so a key
    generated while a file is being processed always has the four parts
    prefix, component name, slug and counter:
    [<prefix>.<component>.<slug>_<counter>]. *)
Theorem file_key_format (o : options) (filePath text : str) (s : session) :
  extractComponentName filePath <> []
  /\ fst (generateKey o text None (setComponentContext filePath s))
     = keyPrefix o ++ [46%N] ++ extractComponentName filePath ++ [46%N]
         ++ cleanText text ++ [95%N] ++ decimal (keyCounter s).
Proof.
  pose proof (extractComponentName_nonempty filePath) as Hne.
  split; [exact Hne |].
  unfold generateKey, setComponentContext, contextPart, truthy. cbn [fst truthy].
  cbn [currentComponentContext keyCounter].
  destruct (extractComponentName filePath) as [| c r]; [congruence |].
  rewrite <- !app_assoc. reflexivity.
Qed.

Lemma file_key_format_witness :
  extractComponentName (u "/src/app/user-profile.component.html") <> []
  /\ fst (generateKey (Example.scenarioOptions false) (u "Save changes!") None
            (setComponentContext (u "/src/app/user-profile.component.html") oneEntry))
     = u "app.userProfile.save_changes_2".
Proof.
  destruct (file_key_format (Example.scenarioOptions false)
              (u "/src/app/user-profile.component.html") (u "Save changes!") oneEntry)
    as [Hne Hk].
  split; [exact Hne |]. rewrite Hk. vm_compute. reflexivity.
Defined.

(** ** [escapeRegExp] *)

Section EscapeFacts.
Implicit Types (s : str) (c : char).



End EscapeFacts.



(** ** The entries of a session *)

Section EntryFacts.
Context `{Platform}.
Variable o : options.
Implicit Types (s : session) (st : pass).

Lemma numbered_new : numbered new_session.
Proof. split; [reflexivity |]. intros i kv Hi. destruct i; discriminate. Qed.

Lemma numbered_context filePath s :
  numbered s -> numbered (setComponentContext filePath s).
Proof. intros Hn. exact Hn. Qed.

Lemma numbered_fresh s k kv :
  numbered s -> hasCounter (keyCounter s) k -> kv ∈ extractedTexts s -> fst kv <> k.
Proof.
  intros [Hc Hn] Hk (i & Hi)%list_elem_of_lookup Heq. subst k.
  pose proof (hasCounter_inj _ _ _ Hk (Hn i kv Hi)) as E.
  apply lookup_lt_Some in Hi. lia.
Qed.

Lemma map_set_fresh k v (m : list (str * str)) :
  (forall kv, kv ∈ m -> fst kv <> k) -> map_set k v m = m ++ [(k, v)].
Proof.
  induction m as [| [k' v'] m IH]; intros Hf; [reflexivity |].
  cbn [map_set]. unfold str_eqb. rewrite bool_decide_eq_false_2.
  - cbn [app]. f_equal. apply IH. intros kv Hkv. apply Hf. now right.
  - intros ->. apply (Hf (k', v')); [now left | reflexivity].
Qed.

(** One extraction appends one entry, with the key of the current counter. *)
Lemma extract_appends text value s :
  numbered s ->
  extractedTexts (snd (extract o text value s))
  = extractedTexts s ++ [(fst (extract o text value s), value)]
  /\ numbered (snd (extract o text value s)).
Proof.
  intros Hn. unfold extract.
  destruct (generateKey_counter o text None s) as [Hk Hc].
  destruct (generateKey o text None s) as [k s'] eqn:E.
  assert (extractedTexts s' = extractedTexts s) as Ht.
  { unfold generateKey in E. now injection E as _ <-. }
  cbn [fst snd] in *. unfold setText. cbn [extractedTexts keyCounter].
  assert (map_set k value (extractedTexts s') = extractedTexts s ++ [(k, value)]) as Hm.
  { rewrite Ht. apply map_set_fresh. intros kv Hkv.
    now apply (numbered_fresh s k kv). }
  split; [exact Hm |]. destruct Hn as [Hlen Hidx].
  split; cbn [extractedTexts keyCounter]; rewrite Hm.
  - rewrite Hc, Hlen, length_app. cbn [length]. lia.
  - intros i kv Hi. destruct (decide (i < length (extractedTexts s))) as [Hlt | Hge].
    + rewrite lookup_app_l in Hi by exact Hlt. now apply Hidx.
    + rewrite lookup_app_r in Hi by lia.
      destruct (i - length (extractedTexts s)) as [| j] eqn:Ej; [| destruct j; discriminate].
      injection Hi as <-. cbn [fst].
      replace (N.of_nat i + 1)%N with (keyCounter s) by lia. exact Hk.
Qed.

Lemma extends_refl s : numbered s -> extends s s.
Proof. intros Hn. split; [exact Hn | reflexivity]. Qed.

Lemma extends_trans s1 s2 s3 : extends s1 s2 -> extends s2 s3 -> extends s1 s3.
Proof. intros [_ H12] [Hn H23]. split; [exact Hn | now transitivity (extractedTexts s2)]. Qed.

Lemma extends_extract text value s :
  numbered s -> extends s (snd (extract o text value s)).
Proof.
  intros Hn. destruct (extract_appends text value s Hn) as [Ha Hn'].
  split; [exact Hn' |]. rewrite Ha. now apply prefix_app_r.
Qed.
End EntryFacts.

Section PassFacts.
Context `{Platform}.
Variable o : options.
Implicit Types (s : session) (st : pass).

(** What one callback of the first loop does: nothing to the session and
    the modifications, or, for an element not processed before, one
    extraction with (under [replace]) its modification. *)
Lemma visitElement_cases tagName el st :
  processedElements st `prefix_of` processedElements (visitElement o tagName el st)
  /\ ((passSession (visitElement o tagName el st) = passSession st
       /\ modifications (visitElement o tagName el st) = modifications st)
      \/ ((fst el ∉ processedElements st)
          /\ fst el ∈ processedElements (visitElement o tagName el st)
          /\ exists text value whole,
               passSession (visitElement o tagName el st)
               = snd (extract o text value (passSession st))
               /\ modifications (visitElement o tagName el st)
                  = if replace o
                    then modifications st
                           ++ [Modification (fst el)
                                 (fst (extract o text value (passSession st))) whole]
                    else modifications st)).
Proof.
  unfold visitElement.
  destruct (decide (fst el ∈ processedElements st)) as [Hin | Hnew].
  { rewrite bool_decide_eq_true_2 by exact Hin. split; [reflexivity | now left]. }
  rewrite bool_decide_eq_false_2 by exact Hnew.
  destruct (existsb _ _ && _); [split; [reflexivity | now left] |]. cbv zeta.
  set (fullText := trim (text_of (snd el))).
  destruct (Nat.eqb _ 0 || isExcluded fullText) eqn:Hex;
    [split; [reflexivity | now left] |].
  destruct (includes (u "{{ '") fullText && _); [split; [reflexivity | now left] |].
  destruct (includes (u "{{") fullText && _); [split; [reflexivity | now left] |].
  destruct (hasAngularDirectives _); [split; [reflexivity | now left] |].
  destruct (Nat.ltb 0 (length (descendants el))); cbn [andb negb].
  - destruct (containsTranslatableText _); [| split; [reflexivity | now left]].
    destruct (extract o fullText _ (passSession st)) as [k s'] eqn:E.
    cbn [processedElements passSession modifications].
    split; [now apply prefix_app_r |]. right. split; [exact Hnew |].
    split; [rewrite elem_of_app; right; now left |].
    exists fullText, (cheerio_html (kids (snd el))), true.
    rewrite E. split; reflexivity.
  - apply orb_false_iff in Hex as [_ ->]. cbn [negb].
    destruct (extract o fullText fullText (passSession st)) as [k s'] eqn:E.
    cbn [processedElements passSession modifications].
    split; [now apply prefix_app_r |]. right. split; [exact Hnew |].
    split; [rewrite elem_of_app; right; now left |].
    exists fullText, fullText, false.
    rewrite E. split; reflexivity.
Qed.

Lemma keysFrom_extract n text value s :
  numbered s -> n <= length (extractedTexts s) ->
  keysFrom n (snd (extract o text value s))
  = keysFrom n s ++ [fst (extract o text value s)].
Proof.
  intros Hn Hle. unfold keysFrom.
  destruct (extract_appends o text value s Hn) as [-> _].
  rewrite drop_app_le by exact Hle. now rewrite map_app.
Qed.

Lemma passInv_visit n s0 tagName el st :
  passInv o n s0 st -> passInv o n s0 (visitElement o tagName el st).
Proof.
  intros ([Hn Hpre] & Hlen & Hmods & Hproc & Hnd). unfold passInv.
  destruct (visitElement_cases tagName el st)
    as [Hpp [[-> ->] | (Hnew & Hin & text & value & whole & -> & ->)]].
  - split; [split; assumption |]. split; [assumption |]. split; [assumption |].
    split; [| assumption].
    intros m Hm. eapply elem_of_prefix; [apply Hproc, Hm | exact Hpp].
  - split; [| split; [exact Hlen |]].
    { eapply extends_trans; [split; eassumption |]. now apply extends_extract. }
    destruct (replace o).
    + split; [| split].
      * rewrite map_app, Hmods, keysFrom_extract; [reflexivity | exact Hn |].
        subst n. now apply prefix_length.
      * intros m [Hm | ->%list_elem_of_singleton]%elem_of_app; [| exact Hin].
        eapply elem_of_prefix; [apply Hproc, Hm | exact Hpp].
      * rewrite map_app. apply NoDup_app. split; [exact Hnd |].
        split; [| apply NoDup_singleton].
        intros p Hp ->%list_elem_of_singleton. apply Hnew.
        change (map element (modifications st)) with (element <$> modifications st) in Hp.
        apply list_elem_of_fmap in Hp as (m & Heq & Hm). cbn [element] in Heq.
        rewrite Heq. now apply Hproc.
    + split; [exact Hmods |]. split; [| exact Hnd].
      intros m Hm. eapply elem_of_prefix; [apply Hproc, Hm | exact Hpp].
Qed.

Lemma passInv_fold n s0 tagName els : forall st,
  passInv o n s0 st ->
  passInv o n s0 (fold_left (fun st' el => visitElement o tagName el st') els st).
Proof.
  induction els as [| el els IH]; intros st Hst; [exact Hst |].
  cbn [fold_left]. apply IH. now apply passInv_visit.
Qed.

Lemma passInv_contentPass doc s :
  numbered s -> passInv o (length (extractedTexts s)) s (contentPass o doc s).
Proof.
  intros Hn. unfold contentPass.
  generalize contentElements. intros tags.
  assert (passInv o (length (extractedTexts s)) s
            {| passSession := s; modifications := []; processedElements := [] |})
    as Hinit.
  { split; [now apply extends_refl |]. split; [reflexivity |].
    cbn [modifications passSession map]. unfold keysFrom.
    rewrite drop_all. split; [now destruct (replace o) |].
    split; [intros m Hm; inversion Hm | constructor]. }
  revert Hinit. generalize (Pass s [] []).
  induction tags as [| t tags IH]; intros st Hst; [exact Hst |].
  cbn [fold_left]. apply IH. now apply passInv_fold.
Qed.

Lemma extends_records vals : forall s,
  numbered s -> extends s (fold_left (record o) vals s).
Proof.
  induction vals as [| v vals IH]; intros s Hn; [now apply extends_refl |].
  cbn [fold_left]. eapply extends_trans.
  - apply (extends_extract o v v s Hn).
  - apply IH. apply (extends_extract o v v s Hn).
Qed.

Lemma extends_scanned filePath content s :
  numbered s -> extends s (fst (scanned o filePath content s)).
Proof.
  intros Hn. unfold scanned. cbv zeta.
  unfold attributePass. rewrite attributePass_elements.
  destruct (passInv_contentPass (cheerio_load content)
              (setComponentContext filePath s) Hn) as (Hext & _).
  eapply extends_trans; [exact Hext |].
  apply extends_records. apply Hext.
Qed.
End PassFacts.

(** ** The entries of a run *)

Section RunFacts.
Context `{Platform}.
Variable o : options.

Lemma extends_template filePath st :
  numbered (sess st) ->
  extends (sess st) (sess (snd (extractFromHtmlTemplate o filePath st))).
Proof.
  intros Hn. rewrite extractFromHtmlTemplate_run, processHtmlTemplate_run.
  destruct (files (wld st) !! filePath) as [content |].
  - cbv zeta. pose proof (extends_scanned o filePath content (sess st) Hn) as He.
    destruct (replace o); [destruct (bool_decide _) |]; exact He.
  - split; [exact Hn | reflexivity].
Qed.

Lemma extends_loop dirPath htmlFiles : forall st,
  numbered (sess st) ->
  extends (sess st) (sess (snd (forEachFile o dirPath htmlFiles st))).
Proof.
  induction htmlFiles as [| file rest IH]; intros st Hn.
  - now apply extends_refl.
  - rewrite forEachFile_cons.
    pose proof (extends_template (Path.join dirPath file) st Hn) as He.
    eapply extends_trans; [exact He |]. apply IH. apply He.
Qed.

Lemma extends_directory dirPath st :
  numbered (sess st) ->
  extends (sess st) (sess (snd (extractFromDirectory o dirPath st))).
Proof.
  intros Hn. rewrite extractFromDirectory_run. cbv zeta.
  apply (extends_loop dirPath _ (warned _ st)). exact Hn.
Qed.

Lemma saveToJSON_session outPath st :
  sess (snd (saveToJSON o outPath st)) = sess st.
Proof.
  rewrite saveToJSON_run. now destruct (bool_decide _).
Qed.

Lemma extractTexts_numbered w : numbered (sess (snd (extractTexts o w))).
Proof.
  rewrite extractTexts_run.
  pose proof (extends_directory (srcPath o) {| sess := new_session; wld := w |}
                numbered_new) as [Hn _].
  destruct (extractFromDirectory o (srcPath o) _) as [[[] | e] st]; cbn [snd] in *.
  - now rewrite saveToJSON_session.
  - exact Hn.
Qed.

Lemma numbered_NoDup s : numbered s -> NoDup (map fst (extractedTexts s)).
Proof.
  intros [_ Hidx]. apply NoDup_alt. intros i j k Hi Hj.
  change (map fst (extractedTexts s)) with (fst <$> extractedTexts s) in *.
  rewrite list_lookup_fmap in Hi, Hj.
  destruct (extractedTexts s !! i) as [kvi |] eqn:Ei; [| discriminate].
  destruct (extractedTexts s !! j) as [kvj |] eqn:Ej; [| discriminate].
  injection Hi as Hi. injection Hj as Hj.
  pose proof (Hidx i kvi Ei) as Hci. pose proof (Hidx j kvj Ej) as Hcj.
  rewrite Hi in Hci. rewrite Hj in Hcj.
  pose proof (hasCounter_inj _ _ _ Hci Hcj). lia.
Qed.
End RunFacts.

(** X7. Whatever the files and whatever goes wrong with them, at the end
    of a run the session holds one entry per key generated: the [i]-th
    entry (from 0) carries the counter [i + 1], the keys are pairwise
    distinct, so that no extraction has overwritten another, and
    [totalTexts] is the key counter minus one. *)
Theorem run_entries_numbered `{Platform} (o : options) (w : world) :
  let s := sess (snd (extractTexts o w)) in
  (forall i kv, extractedTexts s !! i = Some kv ->
     hasCounter (N.of_nat i + 1) (fst kv))
  /\ NoDup (map fst (extractedTexts s))
  /\ N.of_nat (totalTexts (meta (output o s))) = (keyCounter s - 1)%N.
Proof.
  intros s. pose proof (extractTexts_numbered o w) as Hn. fold s in Hn.
  split; [apply Hn |]. split; [now apply numbered_NoDup |].
  destruct Hn as [Hc _]. cbn [output meta totalTexts]. lia.
Qed.

(** X8. Processing one markup file never touches the entries extracted
    before it: in a session whose entries are numbered, the entries after
    the file (readable or not, rewritten or not) start with the entries
    before it, in the same order and with the same values, and are numbered
    again. *)
Theorem earlier_entries_kept `{Platform} (o : options) (filePath : str) (st : state) :
  numbered (sess st) ->
  let s' := sess (snd (extractFromHtmlTemplate o filePath st)) in
  extractedTexts (sess st) `prefix_of` extractedTexts s'
  /\ numbered s'
  /\ (keyCounter (sess st) <= keyCounter s')%N.
Proof.
  intros Hn s'. destruct (extends_template o filePath st Hn) as [Hn' Hp].
  fold s' in Hn', Hp. split; [exact Hp |]. split; [exact Hn' |].
  destruct Hn as [Hc _]. destruct Hn' as [Hc' _].
  apply prefix_length in Hp. lia.
Qed.

Lemma earlier_entries_kept_witness :
  let st := {| sess := oneEntry; wld := Example.scenario |} in
  let s' := sess (snd (@extractFromHtmlTemplate Example.platform
                         (Example.scenarioOptions true)
                         (u "/src/app.component.html") st)) in
  extractedTexts oneEntry `prefix_of` extractedTexts s'
  /\ numbered s'
  /\ (keyCounter oneEntry <= keyCounter s')%N.
Proof.
  intros st.
  apply (@earlier_entries_kept Example.platform (Example.scenarioOptions true)
           (u "/src/app.component.html") st).
  split; [reflexivity |]. intros [| i] kv Hi; [| destruct i; discriminate].
  injection Hi as <-. exists (u "app.home.hello"). reflexivity.
Defined.

(** ** The modifications of the first loop *)

(** X9. After the first loop over a document, with [replace] set the
    modifications prepared are exactly one per entry the loop added, with
    that entry's key and in the same order; without [replace] none is
    prepared.  No two modifications carry the same key, and no element is
    modified twice. *)
Theorem modifications_match_entries `{Platform}
    (o : options) (doc : list node) (s : session) :
  numbered s ->
  let st := contentPass o doc s in
  map key (modifications st)
  = (if replace o then keysFrom (length (extractedTexts s)) (passSession st) else [])
  /\ NoDup (map key (modifications st))
  /\ NoDup (map element (modifications st)).
Proof.
  intros Hn st.
  destruct (passInv_contentPass o doc s Hn) as ([Hn' _] & _ & Hk & _ & Hel).
  fold st in Hn', Hk, Hel. split; [exact Hk |]. split; [| exact Hel].
  rewrite Hk. destruct (replace o); [| constructor].
  unfold keysFrom.
  change (map fst (drop (length (extractedTexts s)) (extractedTexts (passSession st))))
    with (fst <$> drop (length (extractedTexts s)) (extractedTexts (passSession st))).
  rewrite fmap_drop. eapply sublist_NoDup; [| apply sublist_drop].
  now apply numbered_NoDup.
Qed.

Lemma modifications_match_entries_witness :
  let doc := Example.wrap [Elem (u "h1") [] [Text (u "Welcome to our app")];
                           Elem (u "p") [] [Text (u "Please sign in")]] in
  let st := @contentPass Example.platform (Example.scenarioOptions true) doc oneEntry in
  map key (modifications st) = [u "app.home.welcome_to_our_app_2";
                                u "app.home.please_sign_in_3"]
  /\ map key (modifications st)
     = keysFrom (length (extractedTexts oneEntry)) (passSession st)
  /\ NoDup (map key (modifications st))
  /\ NoDup (map element (modifications st)).
Proof.
  intros doc st. split; [vm_compute; reflexivity |].
  apply (@modifications_match_entries Example.platform
           (Example.scenarioOptions true) doc oneEntry).
  split; [reflexivity |]. intros [| i] kv Hi; [| destruct i; discriminate].
  injection Hi as <-. exists (u "app.home.hello"). reflexivity.
Defined.

(** ** Extraction with and without [replace] *)

Section DryFacts.
Context `{Platform}.
Variable o : options.

Lemma extract_dry text value s : extract (dry o) text value s = extract o text value s.
Proof. reflexivity. Qed.

Lemma visitElement_dry tagName el st st' :
  passSession st = passSession st' ->
  processedElements st = processedElements st' ->
  passSession (visitElement o tagName el st)
  = passSession (visitElement (dry o) tagName el st')
  /\ processedElements (visitElement o tagName el st)
     = processedElements (visitElement (dry o) tagName el st').
Proof.
  intros Hs Hp. unfold visitElement. rewrite <- Hs, <- Hp.
  destruct (bool_decide _); [now split |].
  destruct (existsb _ _ && _); [now split |]. cbv zeta.
  destruct (Nat.eqb _ 0 || isExcluded _); [now split |].
  destruct (includes (u "{{ '") _ && _); [now split |].
  destruct (includes (u "{{") _ && _); [now split |].
  destruct (hasAngularDirectives _); [now split |].
  destruct (Nat.ltb 0 (length (descendants el)) && _).
  - rewrite extract_dry. destruct (extract o _ _ (passSession st)). now split.
  - destruct (negb (Nat.ltb 0 _)); [| now split].
    destruct (negb (isExcluded _)); [| now split].
    rewrite extract_dry. destruct (extract o _ _ (passSession st)). now split.
Qed.

Lemma visitElements_dry tagName els : forall st st',
  passSession st = passSession st' ->
  processedElements st = processedElements st' ->
  let f := fun (o' : options) st0 el => visitElement o' tagName el st0 in
  passSession (fold_left (f o) els st) = passSession (fold_left (f (dry o)) els st')
  /\ processedElements (fold_left (f o) els st)
     = processedElements (fold_left (f (dry o)) els st').
Proof.
  induction els as [| el els IH]; intros st st' Hs Hp f; [now split |].
  cbn [fold_left]. destruct (visitElement_dry tagName el st st' Hs Hp) as [Hs' Hp'].
  now apply IH.
Qed.

Lemma contentPass_dry doc s :
  passSession (contentPass o doc s) = passSession (contentPass (dry o) doc s).
Proof.
  unfold contentPass. generalize contentElements. intros tags.
  enough (forall st st',
            passSession st = passSession st' ->
            processedElements st = processedElements st' ->
            let g := fun (o' : options) st0 tagName =>
                       fold_left (fun st1 el => visitElement o' tagName el st1)
                                 (select (u tagName) doc) st0 in
            passSession (fold_left (g o) tags st)
            = passSession (fold_left (g (dry o)) tags st')
            /\ processedElements (fold_left (g o) tags st)
               = processedElements (fold_left (g (dry o)) tags st')) as Hgen.
  { now apply Hgen. }
  induction tags as [| t tags IH]; intros st st' Hs Hp g; [now split |].
  cbn [fold_left].
  destruct (visitElements_dry t (select (u t) doc) st st' Hs Hp) as [Hs' Hp'].
  now apply IH.
Qed.

Lemma scanned_dry filePath content s :
  fst (scanned o filePath content s) = fst (scanned (dry o) filePath content s).
Proof.
  unfold scanned. cbv zeta. unfold attributePass.
  rewrite !attributePass_elements, contentPass_dry. reflexivity.
Qed.
End DryFacts.

(** X10. What is extracted from a markup file does not depend on
    [replace]: after [extractFromHtmlTemplate] the extracted texts, the key
    counter and the component context are those of the same call with
    [replace] off, whether the file is rewritten, cannot be written or
    cannot be read. *)
Theorem replace_independent_entries `{Platform}
    (o : options) (filePath : str) (st : state) :
  sess (snd (extractFromHtmlTemplate o filePath st))
  = sess (snd (extractFromHtmlTemplate (dry o) filePath st)).
Proof.
  rewrite !extractFromHtmlTemplate_run, !processHtmlTemplate_run.
  destruct (files (wld st) !! filePath) as [content |]; [| reflexivity].
  cbv zeta. rewrite <- scanned_dry. cbn [replace dry].
  destruct (replace o); [destruct (bool_decide _) |]; reflexivity.
Qed.

(** ** The file system in a run *)

Section WriteFacts.
Context `{Platform}.
Variable o : options.





End WriteFacts.



(** X13. With [replace] set, a markup file that can be read but not
    written is left as it is and the refused write becomes a warning; the
    call returns normally, and the texts found in the file stay in the
    session, so they reach the artifact although the file keeps its text. *)
Theorem unwritable_template_keeps_entries `{Platform}
    (o : options) (filePath content : str) (st : state) :
  replace o = true ->
  files (wld st) !! filePath = Some content ->
  filePath ∈ readonly (wld st) ->
  let r := extractFromHtmlTemplate o filePath st in
  fst r = Ok tt
  /\ sess (snd r) = fst (scanned o filePath content (sess st))
  /\ files (wld (snd r)) = files (wld st)
  /\ written (wld (snd r)) = written (wld st)
  /\ console (wld (snd r)) = console (wld st) ++ [warning filePath (eacces filePath)].
Proof.
  intros Hr Hf Hro r. subst r.
  rewrite extractFromHtmlTemplate_run, processHtmlTemplate_run, Hf, Hr. cbv zeta.
  rewrite bool_decide_eq_true_2 by exact Hro. repeat split.
Qed.

(** The scenario: one entry, numbered 1. *)
Lemma run_entries_numbered_witness :
  let o := Example.scenarioOptions false in
  let s := sess (snd (@extractTexts Example.platform o Example.scenario)) in
  hasCounter 1 (u "app.app.welcome_to_our_app_1")
  /\ NoDup (map fst (extractedTexts s))
  /\ N.of_nat (totalTexts (meta (@output Example.platform o s))) = (keyCounter s - 1)%N.
Proof.
  intros o s.
  destruct (@run_entries_numbered Example.platform o Example.scenario)
    as (Hidx & Hnd & Ht).
  fold s in Hidx, Hnd, Ht. split; [| split; [exact Hnd | exact Ht]].
  apply (Hidx 0 (u "app.app.welcome_to_our_app_1", u "Welcome to our app")).
  vm_compute. reflexivity.
Defined.


(** The scenario with [replace] set and the markup file protected: a
    warning, the file as it was, and the heading in the session. *)
Lemma unwritable_template_keeps_entries_witness :
  let o := Example.scenarioOptions true in
  let st := {| sess := new_session; wld := protectedScenario |} in
  let r := @extractFromHtmlTemplate Example.platform o (u "/src/app.component.html") st in
  fst r = Ok tt
  /\ extractedTexts (sess (snd r))
     = [(u "app.app.welcome_to_our_app_1", u "Welcome to our app")]
  /\ files (wld (snd r)) !! u "/src/app.component.html" = Some Example.welcomeMarkup
  /\ written (wld (snd r)) = []
  /\ console (wld (snd r))
     = [Warn [u "Warning: Could not process HTML template /src/app.component.html:";
              u "EACCES: permission denied, open '/src/app.component.html'"]].
Proof.
  intros o st r.
  destruct (@unwritable_template_keeps_entries Example.platform o
              (u "/src/app.component.html") Example.welcomeMarkup st eq_refl)
    as (Hok & Hs & Hf & Hw & Hc).
  - vm_compute. reflexivity.
  - unfold st, protectedScenario. cbn [wld readonly].
    apply elem_of_singleton_2. reflexivity.
  - fold r in Hok, Hs, Hf, Hw, Hc.
    split; [exact Hok |]. split; [rewrite Hs; vm_compute; reflexivity |].
    split; [rewrite Hf; vm_compute; reflexivity |].
    split; [exact Hw | exact Hc].
Defined.

(** ** The markup written back *)

Section RewriteFacts.
Implicit Types (s t lit body : str).

Lemma startsWith_app p b : startsWith p (p ++ b) = true.
Proof. apply startsWith_spec. eauto. Qed.

Lemma endsWith_app p a : endsWith p (a ++ p) = true.
Proof. unfold endsWith. rewrite rev_app_distr. apply startsWith_app. Qed.

Lemma startsWith_drop p : forall a b,
  startsWith p (a ++ b) = true -> length a <= length p ->
  startsWith (drop (length a) p) b = true.
Proof.
  induction p as [| y p IH]; intros [| x a] b Hs Hl; simpl in *; try lia; auto.
  apply andb_true_iff in Hs as [_ Hs]. apply IH; [exact Hs | lia].
Qed.

Lemma unwrap_wrapped body : unwrap (wrapperOpen ++ body ++ wrapperClose) = body.
Proof.
  unfold unwrap. rewrite startsWith_app.
  rewrite app_assoc, endsWith_app, <- app_assoc. cbn [andb].
  rewrite drop_app_length' by reflexivity.
  rewrite !length_app.
  change (length wrapperOpen) with 25. change (length wrapperClose) with 14.
  replace (25 + (length body + 14) - 14 - 25) with (length body) by lia.
  apply take_app_length.
Qed.

(** The closing wrapper does not start inside the opening one. *)
Lemma wrappers_apart :
  forallb (fun k => negb (startsWith (drop k (rev wrapperClose)) (rev wrapperOpen)))
          (seq 0 14) = true.
Proof. vm_compute. reflexivity. Qed.

Lemma unwrap_inv s :
  unwrap s = s \/ s = wrapperOpen ++ unwrap s ++ wrapperClose.
Proof.
  unfold unwrap. destruct (startsWith wrapperOpen s) eqn:Hs; [| now left].
  destruct (endsWith wrapperClose s) eqn:He; [| now left]. cbn [andb]. right.
  apply startsWith_spec in Hs as [r ->]. unfold endsWith in He.
  rewrite rev_app_distr in He.
  assert (14 <= length r) as Hlen.
  { destruct (Nat.le_gt_cases 14 (length r)) as [Hle | Hlt]; [exact Hle |].
    exfalso. pose proof wrappers_apart as Hw. rewrite forallb_forall in Hw.
    specialize (Hw (length r)). rewrite in_seq in Hw.
    apply startsWith_drop in He.
    - rewrite length_rev in He. rewrite He in Hw. discriminate Hw. lia.
    - rewrite !length_rev. change (length wrapperClose) with 14. lia. }
  assert (take 14 (rev r) = rev wrapperClose) as Ht.
  { apply startsWith_spec in He as [q Hq]. apply (f_equal (take 14)) in Hq.
    rewrite take_app_le in Hq by (rewrite length_rev; exact Hlen).
    rewrite (take_app_length' (rev wrapperClose)) in Hq by reflexivity.
    exact Hq. }
  assert (r = rev (drop 14 (rev r)) ++ wrapperClose) as Hr.
  { rewrite <- (rev_involutive wrapperClose), <- Ht, <- rev_app_distr, take_drop.
    now rewrite rev_involutive. }
  clear He Hlen Ht. revert Hr. generalize (rev (drop 14 (rev r))). intros r0 ->.
  rewrite drop_app_length' by reflexivity.
  rewrite !length_app.
  change (length wrapperOpen) with 25. change (length wrapperClose) with 14.
  replace (25 + (length r0 + 14) - 14 - 25) with (length r0) by lia.
  now rewrite take_app_length.
Qed.

Lemma replaceAll_fuel_ci fuel lit by_ :
  map Ch.to_lower lit = map Ch.to_lower by_ ->
  forall s, map Ch.to_lower (replaceAll_fuel fuel lit by_ s) = map Ch.to_lower s.
Proof.
  intros Hl. induction fuel as [| fuel IH]; intros s; [reflexivity |].
  destruct s as [| c r]; [reflexivity |]. cbn [replaceAll_fuel].
  destruct (startsWith lit (c :: r)) eqn:Hs.
  - apply startsWith_spec in Hs as [b Hb]. rewrite Hb.
    rewrite drop_app_length, !map_app, IH, Hl. reflexivity.
  - cbn [map]. now rewrite IH.
Qed.

Lemma replaceAll_fuel_absent fuel lit by_ : forall s,
  includes lit s = false -> replaceAll_fuel fuel lit by_ s = s.
Proof.
  induction fuel as [| fuel IH]; intros s Hs; [reflexivity |].
  destruct s as [| c r]; [reflexivity |]. cbn [replaceAll_fuel].
  cbn [includes] in Hs. apply orb_false_iff in Hs as [-> Hr].
  now rewrite IH.
Qed.

Lemma replaceAll_ci lit by_ s :
  map Ch.to_lower lit = map Ch.to_lower by_ ->
  map Ch.to_lower (replaceAll lit by_ s) = map Ch.to_lower s.
Proof. intros Hl. now apply replaceAll_fuel_ci. Qed.

Lemma replaceAll_absent lit by_ s :
  includes lit s = false -> replaceAll lit by_ s = s.
Proof. apply replaceAll_fuel_absent. Qed.
End RewriteFacts.

(** X14. The removal of cheerio's wrapper is exact: a document wrapped in
    [<html><head></head><body>] and [</body></html>] gives back its body,
    whatever the body, and any other string is left as it is, so [unwrap]
    never cuts anything but the two wrapper strings. *)
Theorem unwrap_round_trip (body s : str) :
  unwrap (wrapperOpen ++ body ++ wrapperClose) = body
  /\ (unwrap s = s \/ s = wrapperOpen ++ unwrap s ++ wrapperClose).
Proof. split; [apply unwrap_wrapped | apply unwrap_inv]. Qed.

(** X15. The restoration of directive names changes the case of ASCII
    letters and nothing else: the result has the length of the input and
    the same lower-case form; and markup in which none of [*ngif=],
    [*ngfor=], [*ngswitch=], [[ngclass]=], [[ngstyle]=], [routerlink=],
    [[routerlink]=] occurs is returned unchanged. *)
Theorem restoreDirectiveCase_case_only (s : str) :
  map Ch.to_lower (restoreDirectiveCase s) = map Ch.to_lower s
  /\ length (restoreDirectiveCase s) = length s
  /\ (forallb (fun d => negb (includes (u d) s)) loweredDirectives = true ->
      restoreDirectiveCase s = s).
Proof.
  assert (map Ch.to_lower (restoreDirectiveCase s) = map Ch.to_lower s) as Hci.
  { unfold restoreDirectiveCase.
    rewrite !replaceAll_ci by (vm_compute; reflexivity). reflexivity. }
  split; [exact Hci |]. split.
  - rewrite <- (length_map Ch.to_lower), Hci. apply length_map.
  - cbn [forallb loweredDirectives]. rewrite !andb_true_iff, !negb_true_iff.
    intros (H1 & H2 & H3 & H4 & H5 & H6 & H7 & _).
    unfold restoreDirectiveCase.
    rewrite (replaceAll_absent _ _ s H1), (replaceAll_absent _ _ s H2),
      (replaceAll_absent _ _ s H3), (replaceAll_absent _ _ s H4),
      (replaceAll_absent _ _ s H5), (replaceAll_absent _ _ s H6).
    now apply replaceAll_absent.
Qed.

Lemma restoreDirectiveCase_case_only_witness :
  restoreDirectiveCase (u "<h1 title=x>Welcome</h1>") = u "<h1 title=x>Welcome</h1>"
  /\ restoreDirectiveCase (u "<li *ngfor=y><a routerlink=z>")
     = u "<li *ngFor=y><a routerLink=z>".
Proof.
  split; [| vm_compute; reflexivity].
  apply (restoreDirectiveCase_case_only (u "<h1 title=x>Welcome</h1>")).
  vm_compute. reflexivity.
Defined.

(** ** Tags and placeholders *)

Section TagFacts.
Implicit Types (s t : str) (c : char).

Lemma dropWhile_sublist p s : dropWhile p s `sublist_of` s.
Proof.
  destruct (dropWhile_split p s) as (a & Hs & _). rewrite Hs at 2.
  now apply sublist_inserts_l.
Qed.

Lemma stripTags_fuel_sublist fuel : forall s, stripTags_fuel fuel s `sublist_of` s.
Proof.
  induction fuel as [| fuel IH]; intros s; [reflexivity |].
  destruct s as [| c r]; [reflexivity |]. cbn [stripTags_fuel].
  destruct (N.eqb c 60 && includes (u ">") r).
  - apply sublist_cons. etransitivity; [apply IH |].
    etransitivity; [apply sublist_drop | apply dropWhile_sublist].
  - apply sublist_skip, IH.
Qed.

Lemma includes_sublist c s t :
  s `sublist_of` t -> includes [c] t = false -> includes [c] s = false.
Proof.
  intros Hs Ht. destruct (includes [c] s) eqn:E; [| reflexivity].
  apply includes_one in E. eapply elem_of_sublist in E; [| exact Hs].
  apply includes_one in E. congruence.
Qed.

Lemma stripTags_fuel_hasTag fuel : forall s,
  length s <= fuel -> hasTag (stripTags_fuel fuel s) = false.
Proof.
  induction fuel as [| fuel IH]; intros s Hl.
  - destruct s; [reflexivity | simpl in Hl; lia].
  - destruct s as [| c r]; [reflexivity |]. cbn [stripTags_fuel]. simpl in Hl.
    destruct (N.eqb c 60 && includes (u ">") r) eqn:Hc.
    + apply IH. rewrite length_drop.
      pose proof (sublist_length _ _ (dropWhile_sublist (fun x => negb (N.eqb x 62)) r)).
      unfold char in *. lia.
    + cbn [hasTag]. rewrite IH by lia. rewrite orb_false_r.
      apply andb_false_iff in Hc as [-> | Hc]; [reflexivity |].
      apply andb_false_iff. right.
      exact (includes_sublist 62%N _ r (stripTags_fuel_sublist fuel r) Hc).
Qed.

Lemma stripTags_fuel_id fuel : forall s,
  hasTag s = false -> stripTags_fuel fuel s = s.
Proof.
  induction fuel as [| fuel IH]; intros s Hs; [reflexivity |].
  destruct s as [| c r]; [reflexivity |]. cbn [stripTags_fuel].
  cbn [hasTag] in Hs. apply orb_false_iff in Hs as [-> Hr].
  now rewrite IH.
Qed.

Lemma dropWhile_app_stop p a c r :
  p c = false -> dropWhile p (a ++ c :: r) = dropWhile p a ++ c :: r.
Proof.
  intros Hc. induction a as [| x a IH]; simpl.
  - now rewrite Hc.
  - now destruct (p x).
Qed.

(** Trimming keeps an occurrence that starts and ends with a character
    other than white space. *)
Lemma trim_keeps c m d a b :
  Ch.space c = false -> Ch.space d = false ->
  exists a' b', trim (a ++ (c :: m ++ [d]) ++ b) = a' ++ (c :: m ++ [d]) ++ b'.
Proof.
  intros Hc Hd. unfold trim, trimStart, trimEnd.
  cbn [app]. rewrite (dropWhile_app_stop Ch.space a c _ Hc).
  set (a' := dropWhile Ch.space a). exists a'.
  replace (a' ++ c :: (m ++ [d]) ++ b) with ((a' ++ c :: m) ++ d :: b)
    by (rewrite <- !app_assoc; reflexivity).
  rewrite rev_app_distr. cbn [rev]. rewrite <- app_assoc. cbn [app].
  rewrite (dropWhile_app_stop Ch.space (rev b) d _ Hd).
  exists (rev (dropWhile Ch.space (rev b))).
  rewrite rev_app_distr. cbn [rev]. rewrite rev_involutive.
  rewrite <- !app_assoc. reflexivity.
Qed.

Lemma trim_placeholder k a b :
  exists a' b', trim (a ++ placeholder k ++ b) = a' ++ placeholder k ++ b'.
Proof.
  assert (placeholder k
          = 123%N :: (u "{ '" ++ k ++ u "' | translate }") ++ [125%N]) as E.
  { unfold placeholder. rewrite <- !app_assoc. reflexivity. }
  destruct (trim_keeps 123%N (u "{ '" ++ k ++ u "' | translate }") 125%N a b
              eq_refl eq_refl) as (a' & b' & Ht).
  exists a', b'. rewrite E. exact Ht.
Qed.

Lemma placeholder_trimmed k t :
  Contains (placeholder k) t ->
  includes (u "{{ '") (trim t) = true
  /\ includes (u "' | translate }}") (trim t) = true.
Proof.
  intros (a & b & ->). destruct (trim_placeholder k a b) as (a' & b' & ->).
  split; apply includes_spec.
  - exists a', (k ++ u "' | translate }}" ++ b').
    unfold placeholder. now rewrite <- !app_assoc.
  - exists (a' ++ u "{{ '" ++ k), b'.
    unfold placeholder. now rewrite <- !app_assoc.
Qed.

Lemma placeholder_braces k v :
  Contains (placeholder k) v -> includes (u "{{") v = true.
Proof.
  intros (a & b & ->). apply includes_spec.
  exists a, (u " '" ++ k ++ u "' | translate }}" ++ b).
  unfold placeholder. rewrite <- !app_assoc. reflexivity.
Qed.
End TagFacts.

(** X16. The removal of tags in [containsTranslatableText] only deletes:
    what is left is a subsequence of the markup in which no [<] is followed
    by a [>] any more, and markup without such a pair is left as it is (and
    only such markup), so stripping twice is stripping once. *)
Theorem stripTags_spec (s : str) :
  stripTags s `sublist_of` s
  /\ hasTag (stripTags s) = false
  /\ (stripTags s = s <-> hasTag s = false)
  /\ stripTags (stripTags s) = stripTags s.
Proof.
  assert (hasTag (stripTags s) = false) as Hno
    by (apply stripTags_fuel_hasTag; reflexivity).
  split; [apply stripTags_fuel_sublist |]. split; [exact Hno |]. split.
  - split; [intros E; now rewrite <- E | apply stripTags_fuel_id].
  - now apply stripTags_fuel_id.
Qed.

Lemma stripTags_spec_witness :
  stripTags (u "3 < 5 items") = u "3 < 5 items"
  /\ stripTags (u "Click <a href=x>here</a> now") = u "Click here now".
Proof.
  split; [| vm_compute; reflexivity].
  destruct (stripTags_spec (u "3 < 5 items")) as (_ & _ & [_ Hid] & _).
  apply Hid. vm_compute. reflexivity.
Defined.

(** X17. A placeholder is never extracted again.  The first loop leaves
    alone every element whose text contains [{{ '<key>' | translate }}],
    whatever else the text holds, and the second loop every listed
    attribute whose value contains one: session, modifications and
    attributes are as before. *)
Theorem placeholders_skipped `{Platform} (o : options) (k : str) :
  (forall tagName el st,
     Contains (placeholder k) (text_of (snd el)) ->
     visitElement o tagName el st = st)
  /\ (forall attr s a v,
        attr_get (u attr) a = Some v ->
        Contains (placeholder k) v ->
        visitAttribute o attr (s, a) = (s, a)).
Proof.
  split.
  - intros tagName el st Hc. unfold visitElement.
    destruct (placeholder_trimmed k _ Hc) as [H1 H2].
    destruct (bool_decide _); [reflexivity |].
    destruct (existsb _ _ && _); [reflexivity |]. cbv zeta.
    destruct (Nat.eqb _ 0 || isExcluded _); [reflexivity |].
    now rewrite H1, H2.
  - intros attr s a v Hv Hc. unfold visitAttribute. rewrite Hv.
    destruct (_ && _ && _); [| reflexivity].
    now rewrite (placeholder_braces k v Hc).
Qed.

Lemma placeholders_skipped_witness :
  let o := Example.scenarioOptions true in
  let k := u "app.app.welcome_to_our_app_1" in
  let el := ([0; 1; 0], Elem (u "h1") [] [Text (u "  " ++ placeholder k ++ u " now")]) in
  let st := {| passSession := oneEntry; modifications := []; processedElements := [] |} in
  let a := [(u "title", placeholder k)] in
  @visitElement Example.platform o "h1" el st = st
  /\ visitAttribute o "title" (oneEntry, a) = (oneEntry, a).
Proof.
  intros o k el st a.
  destruct (@placeholders_skipped Example.platform o k) as [Hel Hattr]. split.
  - apply Hel. exists (u "  "), (u " now"). reflexivity.
  - apply (Hattr "title"%string oneEntry a (placeholder k)); [reflexivity |].
    exists [], []. cbn [app]. now rewrite app_nil_r.
Defined.

(** ** Elements without child elements, and rewritten attributes *)

Section LeafFacts.
Context `{Platform}.
Variable o : options.

Lemma includes_weaken p a b s :
  includes (a ++ p ++ b) s = true -> includes p s = true.
Proof.
  rewrite !includes_spec. intros (x & y & ->).
  exists (x ++ a), (b ++ y). now rewrite <- !app_assoc.
Qed.

Lemma find_leaf tags el : descendants el = [] -> find tags el = [].
Proof. intros Hd. unfold find. now rewrite Hd. Qed.

Lemma visitElement_leaf tagName el st :
  fst el ∉ processedElements st ->
  descendants el = [] ->
  hasAngularDirectives (snd el) = false ->
  let t := trim (text_of (snd el)) in
  passSession (visitElement o tagName el st)
  = if plainText t then snd (extract o t t (passSession st)) else passSession st.
Proof.
  intros Hnew Hd Hdir t. unfold visitElement, plainText.
  rewrite bool_decide_eq_false_2 by exact Hnew.
  rewrite (find_leaf _ el Hd), Hd, Hdir. cbn [length Nat.ltb Nat.leb andb negb].
  rewrite andb_false_r. cbv zeta. fold t.
  destruct (isExcluded t) eqn:Hex.
  { now rewrite orb_true_r. }
  assert (Nat.eqb (length t) 0 = false) as ->.
  { apply Nat.eqb_neq. intros H0.
    rewrite isExcluded_empty in Hex; [discriminate |].
    subst t. now rewrite trim_idem. }
  cbn [orb negb andb].
  destruct (includes (u "{{") t && includes (u "}}") t) eqn:Hb.
  - cbn [negb]. now destruct (includes (u "{{ '") t && _).
  - destruct (includes (u "{{ '") t && includes (u "' | translate }}") t) eqn:Hp.
    + apply andb_true_iff in Hp as [H1 H2].
      apply (includes_weaken (u "{{") [] (u " '")) in H1.
      apply (includes_weaken (u "}}") (u "' | translate ") []) in H2.
      rewrite H1, H2 in Hb. discriminate.
    + cbn [negb]. destruct (extract o t t (passSession st)). reflexivity.
Qed.

Lemma attr_get_set_eq n v a : attr_get n (attr_set n v a) = Some v.
Proof.
  unfold attr_set. induction a as [| [k' v'] a IH]; cbn [map_set attr_get].
  - unfold str_eqb. now rewrite bool_decide_eq_true_2.
  - destruct (str_eqb n k') eqn:E; cbn [attr_get].
    + unfold str_eqb. now rewrite bool_decide_eq_true_2.
    + assert (str_eqb k' n = false) as ->; [| exact IH].
      unfold str_eqb in *. apply bool_decide_eq_false in E.
      apply bool_decide_eq_false_2. congruence.
Qed.

Lemma visitAttribute_replaced attr s a v :
  replace o = true ->
  attr_get (u attr) a = Some v ->
  extractable v = true ->
  snd (visitAttribute o attr (s, a))
  = attr_set (u attr) (placeholder (fst (extract o v v s))) a.
Proof.
  intros Hr Hv He. unfold visitAttribute. rewrite Hv.
  unfold extractable in He. apply andb_true_iff in He as [Hex Hm].
  apply negb_true_iff in Hex. apply negb_true_iff in Hm. rewrite Hex, Hm.
  assert (0 < length (trim v)) as Ht.
  { destruct (length (trim v)) eqn:E; [| lia].
    rewrite isExcluded_empty in Hex; [discriminate | exact E]. }
  assert (0 < length v) as Hl.
  { destruct v; [rewrite trim_nil in Ht; simpl in Ht; lia | simpl; lia]. }
  apply Nat.ltb_lt in Ht, Hl. rewrite Ht, Hl. cbn [andb negb].
  destruct (extract o v v s). now rewrite Hr.
Qed.
End LeafFacts.

(** X18. For an element without child elements (not yet processed, no
    Angular directive among its attributes) the first loop extracts the
    trimmed text exactly when [isExcluded] does not exclude it and it does
    not hold both [{{] and [}}].  The tests for an empty text and for an
    applied placeholder add nothing, and [isDisplayText] is not consulted. *)
Theorem leaf_elements_bypass_classifier `{Platform}
    (o : options) (tagName : string) (el : path * node) (st : pass) :
  (fst el ∉ processedElements st) ->
  descendants el = [] ->
  hasAngularDirectives (snd el) = false ->
  let t := trim (text_of (snd el)) in
  passSession (visitElement o tagName el st)
  = if plainText t then snd (extract o t t (passSession st)) else passSession st.
Proof. apply visitElement_leaf. Qed.

Lemma leaf_elements_bypass_classifier_witness :
  let o := Example.scenarioOptions false in
  let el := ([0], Elem (u "p") [] [Text (u " userId ")]) in
  let st := {| passSession := new_session; modifications := []; processedElements := [] |} in
  isDisplayText (u "userId") None = false
  /\ extractedTexts (passSession (@visitElement Example.platform o "p" el st))
     = [(u "app.userid_1", u "userId")].
Proof.
  intros o el st. split; [vm_compute; reflexivity |].
  rewrite (@leaf_elements_bypass_classifier Example.platform o "p"%string el st).
  - vm_compute. reflexivity.
  - apply not_elem_of_nil.
  - reflexivity.
  - reflexivity.
Defined.

(** X19. With [replace] set, an attribute whose value is extracted holds
    afterwards the placeholder of the very key under which the old value
    was stored, as the last entry of the session; the other attributes of
    the element keep their values. *)
Theorem attribute_placeholder_resolves `{Platform}
    (o : options) (attr : string) (s : session) (a : list (str * str)) (v : str) :
  numbered s ->
  replace o = true ->
  attr_get (u attr) a = Some v ->
  extractable v = true ->
  let r := visitAttribute o attr (s, a) in
  let k := fst (extract o v v s) in
  attr_get (u attr) (snd r) = Some (placeholder k)
  /\ extractedTexts (fst r) = extractedTexts s ++ [(k, v)]
  /\ (forall n, u attr <> n -> attr_get n (snd r) = attr_get n a).
Proof.
  intros Hn Hr Hv He r k. subst r k. split; [| split].
  - rewrite (visitAttribute_replaced o attr s a v Hr Hv He). apply attr_get_set_eq.
  - rewrite visitAttribute_fst, Hv, He. unfold record.
    apply (extract_appends o v v s Hn).
  - intros n Hne. now apply visitAttribute_other.
Qed.

Lemma attribute_placeholder_resolves_witness :
  let o := Example.scenarioOptions true in
  let a := [(u "class", u "logo"); (u "alt", u "Company logo")] in
  let r := visitAttribute o "alt" (oneEntry, a) in
  attr_get (u "alt") (snd r) = Some (placeholder (u "app.home.company_logo_2"))
  /\ extractedTexts (fst r)
     = [(u "app.home.hello_1", u "Hello");
        (u "app.home.company_logo_2", u "Company logo")]
  /\ attr_get (u "class") (snd r) = Some (u "logo").
Proof.
  intros o a r.
  destruct (@attribute_placeholder_resolves Example.platform o "alt"%string
              oneEntry a (u "Company logo")) as (Hp & He & Ho).
  - split; [reflexivity |]. intros [| i] kv Hi; [| destruct i; discriminate].
    injection Hi as <-. exists (u "app.home.hello"). reflexivity.
  - reflexivity.
  - reflexivity.
  - vm_compute. reflexivity.
  - fold r in Hp, He, Ho. split; [exact Hp |]. split; [exact He |].
    rewrite Ho; [reflexivity | discriminate].
Defined.
